(** * libicsneo: aligned disk reads, the CAN packet layout and CDC-ACM handles

    A shallow embedding of
    - [PlasionDiskReadDriver::readLogicalDiskAligned]
      (disk/plasiondiskreaddriver.cpp),
    - the bit-field declaration of [HardwareCANPacket]
      (include/icsneo/communication/packet/canpacket.h),
    - the handle computation of [CDCACM::Find] and [CDCACM::HandleToTTY]
      (platform/posix/linux/cdcacmlinux.cpp),
    followed by the properties established about them. *)

From Stdlib Require Import ZArith List Bool Lia String Ascii.
From Stdlib Require Import Strings.Byte.
Import ListNotations.

Local Open Scope Z_scope.

(** ** Fixed-width integers *)

Module Width.

(** An unsigned [w]-bit value is a [Z] reduced modulo [2^w]. *)
Definition uint8 (x : Z) : Z := x mod 2 ^ 8.
Definition uint32 (x : Z) : Z := x mod 2 ^ 32.
Definition uint64 (x : Z) : Z := x mod 2 ^ 64.

(** A signed 32-bit value, two's complement. *)
Definition int32 (x : Z) : Z := (x + 2 ^ 31) mod 2 ^ 32 - 2 ^ 31.

(** Little-endian byte order: the [n] low-order bytes of [x], least
    significant first, and the value a list of bytes stands for. *)
Fixpoint le_bytes (n : nat) (x : Z) : list Z :=
  match n with
  | O => []
  | S k => x mod 256 :: le_bytes k (x / 256)
  end.

Fixpoint le_value (bs : list Z) : Z :=
  match bs with
  | [] => 0
  | b :: rest => b + 256 * le_value rest
  end.

End Width.

(** ** The aligned disk read *)

Module PlasionDisk.
Import Width.

(** *** Messages and the filter of the transaction *)

(** [Network::NetID]: only [NeoMemorySDRead] is named by the driver. *)
Inductive NetID : Type :=
| NeoMemorySDRead
| OtherNetID (raw : Z).

(** The dynamic type of a message.  [NeoReadMemorySDMessage] carries the
    [data] vector the driver copies; every other class makes the
    [dynamic_pointer_cast] fail. *)
Inductive MessageBody : Type :=
| NeoReadMemorySDMessage (data : list byte)
| OtherMessage.

Record Message : Type := mkMessage {
  network : NetID;
  body : MessageBody
}.

Definition NetID_eqb (a b : NetID) : bool :=
  match a, b with
  | NeoMemorySDRead, NeoMemorySDRead => true
  | OtherNetID x, OtherNetID y => x =? y
  | _, _ => false
  end.

(** Modelled from the spec: [MessageFilter] is declared outside the sources
    at hand.  A filter built from a network identifier matches the messages
    of that network. *)
Record MessageFilter : Type := mkFilter { filter_netid : NetID }.

Definition filter_match (f : MessageFilter) (m : Message) : bool :=
  NetID_eqb (filter_netid f) (network m).

(** *** The communication object *)

(** What a subscription runs: the closure of a disk read, or a handler of
    some other client of the registry. *)
Inductive Handler : Type :=
| DiskReadCallback
| ClientHandler (tag : nat).

Record Subscription : Type := mkSubscription {
  sub_id : nat;
  sub_filter : MessageFilter;
  sub_handler : Handler
}.

(** The part of [Communication] the driver touches: the callback registry,
    the counter that issues callback ids, and the frames handed to
    [rawWrite], oldest first. *)
Record Communication : Type := mkCommunication {
  messageCallbacks : list Subscription;
  messageCallbackIDCounter : nat;
  written : list (list Z)
}.

(** Modelled from the spec: [Communication::addMessageCallback] is defined
    outside the sources at hand.  Subscribing appends a subscription and
    returns its id; ids are issued monotonically and never reused. *)
Definition addMessageCallback (com : Communication) (f : MessageFilter)
           (h : Handler) : nat * Communication :=
  let id := messageCallbackIDCounter com in
  (id, {| messageCallbacks := messageCallbacks com ++ [mkSubscription id f h];
          messageCallbackIDCounter := S id;
          written := written com |}).

(** Modelled from the spec: [Communication::removeMessageCallback] is
    defined outside the sources at hand.  Unsubscribing removes the
    subscription with the given id if present and does nothing otherwise. *)
Definition removeMessageCallback (com : Communication) (id : nat)
  : Communication :=
  {| messageCallbacks :=
       filter (fun s => negb (Nat.eqb (sub_id s) id)) (messageCallbacks com);
     messageCallbackIDCounter := messageCallbackIDCounter com;
     written := written com |}.

(** A call of [Communication::rawWrite] is recorded with the frame it was
    passed. *)
Definition rawWrite (com : Communication) (frame : list Z) : Communication :=
  {| messageCallbacks := messageCallbacks com;
     messageCallbackIDCounter := messageCallbackIDCounter com;
     written := written com ++ [frame] |}.

(** Every id in the registry was issued by the counter. *)
Definition registry_wf (com : Communication) : Prop :=
  Forall (fun s => (sub_id s < messageCallbackIDCounter com)%nat)
         (messageCallbacks com).

(** *** Destination memory *)

(** The destination is a raw pointer [into]; memory is indexed relative to
    it. *)
Definition Memory : Type := Z -> byte.

(** [std::vector::size] as a [size_t]. *)
Definition vsize (data : list byte) : Z := Z.of_nat (List.length data).

(** No vector holds more than [PTRDIFF_MAX] bytes
    ([std::vector::max_size]). *)
Definition max_size : Z := 2 ^ 63 - 1.

(** [memcpy(into + dst, src.data(), src.size())]. *)
Definition memcpy (mem : Memory) (dst : Z) (src : list byte) : Memory :=
  fun i =>
    if (dst <=? i) && (i <? dst + vsize src)
    then nth (Z.to_nat (i - dst)) src x00
    else mem i.

(** The [n] bytes of memory from index [start]. *)
Fixpoint read_range (mem : Memory) (start : Z) (n : nat) : list byte :=
  match n with
  | O => []
  | S k => mem start :: read_range mem (start + 1) k
  end.

(** *** The state shared by the waiter and the callback *)

(** The locals captured by reference in the lambda: [copied], [error], the
    destination, and the number of [cv.notify_all()] calls made so far. *)
Record Transaction : Type := mkTransaction {
  copied : Z;
  error : bool;
  into : Memory;
  notified : nat
}.

Definition notify_all (t : Transaction) : Transaction :=
  {| copied := copied t; error := error t; into := into t;
     notified := S (notified t) |}.

Definition set_error (t : Transaction) : Transaction :=
  {| copied := copied t; error := true; into := into t;
     notified := notified t |}.

(** [std::dynamic_pointer_cast<NeoReadMemorySDMessage>(msg)]: null for a
    null pointer and for every other dynamic type. *)
Definition dynamic_pointer_cast (msg : option Message) : option (list byte) :=
  match msg with
  | Some {| body := NeoReadMemorySDMessage data |} => Some data
  | _ => None
  end.

(** A message as the callback can receive it: its payload, if it has one,
    respects [max_size]. *)
Definition sized (msg : option Message) : Prop :=
  match dynamic_pointer_cast msg with
  | Some data => vsize data <= max_size
  | None => True
  end.

(** A response chunk on the network the transaction listens to. *)
Definition sd_chunk (data : list byte) : Message :=
  {| network := NeoMemorySDRead; body := NeoReadMemorySDMessage data |}.

(** The locals as the call initialises them. *)
Definition fresh (dest : Memory) : Transaction :=
  {| copied := 0; error := false; into := dest; notified := 0 |}.

(** The lambda registered by [readLogicalDiskAligned].  [copied] is a
    [uint32_t]; [copied + sdmsg->data.size()] is computed in [size_t]. *)
Definition callback (amount : Z) (msg : option Message) (t : Transaction)
  : Transaction :=
  match dynamic_pointer_cast msg with
  | None => notify_all (set_error t)
  | Some data =>
      if amount <? uint64 (copied t + vsize data)
      then notify_all (set_error t)
      else
        let t1 := {| copied := uint32 (copied t + uint32 (vsize data));
                     error := error t;
                     into := memcpy (into t) (copied t) data;
                     notified := notified t |} in
        if copied t1 =? amount then notify_all t1 else t1
  end.

(** The filter the callback is registered with. *)
Definition NeoMemorySDRead_filter : MessageFilter := mkFilter NeoMemorySDRead.

(** Dispatch of one incoming message to the transaction's subscription: the
    callback runs on the messages its filter matches. *)
Definition dispatch (amount : Z) (t : Transaction) (m : Message)
  : Transaction :=
  if filter_match NeoMemorySDRead_filter m
  then callback amount (Some m) t
  else t.

Definition deliver (amount : Z) (ms : list Message) (t : Transaction)
  : Transaction :=
  fold_left (dispatch amount) ms t.

(** The predicate of the wait: [error || copied == amount]. *)
Definition wait_pred (amount : Z) (t : Transaction) : bool :=
  error t || (copied t =? amount).

(** [cv.wait_for(lk, timeout, pred)].  The waiter holds the lock except
    while it sleeps, so callbacks run only during its sleeps.  [sleeps]
    lists, for each sleep, the messages dispatched during it; the timeout
    expires when the list is exhausted.  The result is the value of the
    predicate on return, as [wait_for] specifies. *)
Fixpoint wait_for (amount : Z) (sleeps : list (list Message))
         (t : Transaction) : Transaction * bool :=
  match sleeps with
  | [] => (t, wait_pred amount t)
  | ms :: rest =>
      if wait_pred amount t then (t, true)
      else wait_for amount rest (deliver amount ms t)
  end.

(** The terminal states of a transaction, read off the shared locals when
    the wait returns. *)
Inductive Completion : Type := Complete | Errored | TimedOut.

Definition terminal_state (amount : Z) (t : Transaction) : Completion :=
  if error t then Errored
  else if copied t =? amount then Complete
  else TimedOut.

(** What a call leaves behind: the returned optional, the communication
    object, and the transaction locals if the call got as far as creating
    them. *)
Record Outcome : Type := mkOutcome {
  result : option Z;
  com_after : Communication;
  txn : option Transaction
}.

Section Driver.

(** Declared outside the sources at hand: the pair returned by
    [getBlockSizeBounds()] (minimum granularity, maximum block size),
    [Disk::SectorSize], and the command byte
    [MultiChannelCommunication::CommandType::HostPC_from_SDCC1]. *)
Variable getBlockSizeBounds : Z * Z.
Variable SectorSize : Z.
Variable HostPC_from_SDCC1 : Z.

(** The initializer list passed to [rawWrite]. *)
Definition command_frame (sector amount : Z) : list Z :=
  [ uint8 HostPC_from_SDCC1;
    uint8 (Z.land sector 255);
    uint8 (Z.land (Z.shiftr sector 8) 255);
    uint8 (Z.land (Z.shiftr sector 16) 255);
    uint8 (Z.land (Z.shiftr sector 24) 255);
    uint8 (Z.land amount 255);
    uint8 (Z.land (Z.shiftr amount 8) 255) ].

Definition failure (com : Communication) : Outcome :=
  {| result := None; com_after := com; txn := None |}.

(** [pos] and [amount] are [uint64_t]; [dest] is the memory at [into]. *)
Definition readLogicalDiskAligned (com : Communication) (pos : Z)
           (dest : Memory) (amount : Z) (sleeps : list (list Message))
  : Outcome :=
  if snd getBlockSizeBounds <? amount then failure com
  else if negb (amount mod fst getBlockSizeBounds =? 0) then failure com
  else if negb (pos mod fst getBlockSizeBounds =? 0) then failure com
  else
    let largeSector := pos / SectorSize in
    let sector := uint32 largeSector in
    if negb (largeSector =? sector) then failure com
    else
      let t0 := fresh dest in
      let '(cb, com1) :=
        addMessageCallback com NeoMemorySDRead_filter DiskReadCallback in
      let com2 := rawWrite com1 (command_frame sector amount) in
      let '(t, woke) := wait_for amount sleeps t0 in
      let hitTimeout := negb woke in
      let com3 := removeMessageCallback com2 cb in
      if hitTimeout
      then {| result := None; com_after := com3; txn := Some t |}
      else {| result := Some amount; com_after := com3; txn := Some t |}.

(** The three preconditions on the request. *)
Definition preconditions (pos amount : Z) : Prop :=
  amount <= snd getBlockSizeBounds
  /\ amount mod fst getBlockSizeBounds = 0
  /\ pos mod fst getBlockSizeBounds = 0.

(** A request that passes every check made before any I/O. *)
Definition validated (pos amount : Z) : Prop :=
  preconditions pos amount /\ pos / SectorSize < 2 ^ 32.

End Driver.

End PlasionDisk.

(** ** The hardware CAN packet *)

Module CANPacket.

(** A bit-field member: its name and its declared width in bits.  The
    unnamed padding member of the timestamp has the empty name. *)
Record BitField : Type := mkBitField {
  field_name : string;
  field_width : nat
}.

(** [typedef uint16_t icscm_bitfield]. *)
Definition icscm_bitfield_bits : nat := 16.

(** The members of [HardwareCANPacket], block by block, in declaration
    order. *)
Definition header : list BitField :=
  [ mkBitField "IDE" 1; mkBitField "SRR" 1; mkBitField "SID" 11;
    mkBitField "EDL" 1; mkBitField "BRS" 1; mkBitField "ESI" 1 ].

Definition eid : list BitField :=
  [ mkBitField "EID" 12; mkBitField "TXMSG" 1; mkBitField "TXAborted" 1;
    mkBitField "TXLostArb" 1; mkBitField "TXError" 1 ].

Definition dlc : list BitField :=
  [ mkBitField "DLC" 4; mkBitField "RB0" 1; mkBitField "IVRIF" 1;
    mkBitField "HVEnable" 1; mkBitField "ExtendedNetworkIndexBit" 1;
    mkBitField "RB1" 1; mkBitField "RTR" 1; mkBitField "EID2" 6 ].

Definition timestamp : list BitField :=
  [ mkBitField "TS" 60; mkBitField "" 3; mkBitField "IsExtended" 1 ].

(** The number of bits a block declares. *)
Definition block_width (fs : list BitField) : nat :=
  fold_right (fun f n => (field_width f + n)%nat) 0%nat fs.

(** Members are allocated consecutively in declaration order: each member
    with the offset of its first bit inside the block. *)
Fixpoint place (start : nat) (fs : list BitField)
  : list (string * nat * nat) :=
  match fs with
  | [] => []
  | f :: rest =>
      (field_name f, start, field_width f)
        :: place (start + field_width f)%nat rest
  end.

(** The members of a block between its first and its last one. *)
Definition inner (fs : list BitField) : list BitField :=
  removelast (tl fs).

(** The shape the dlc block is described with: a 4-bit [DLC], then [k]
    one-bit status or reserved members, then a 6-bit [EID2], the three
    together filling the 16-bit storage unit. *)
Definition dlc_block_shape (k : nat) : Prop :=
  hd_error dlc = Some (mkBitField "DLC" 4)
  /\ last dlc (mkBitField "" 0) = mkBitField "EID2" 6
  /\ Forall (fun f => field_width f = 1%nat) (inner dlc)
  /\ List.length (inner dlc) = k
  /\ (4 + k + 6)%nat = icscm_bitfield_bits.

End CANPacket.

(** ** CDC-ACM device handles *)

Module CDCACM.
Import Width.

(** [static constexpr const neodevice_handle_t HANDLE_OFFSET = 10]. *)
Definition HANDLE_OFFSET : Z := 10.

(** [neodevice_handle_t] is declared outside the sources at hand; it is
    taken to be the 32-bit signed integer that the [int] cast of
    [HandleToTTY] prints. *)
Definition neodevice_handle (x : Z) : Z := int32 x.

(** *** <cctype> on ASCII *)

Definition isdigit (c : ascii) : bool :=
  let n := nat_of_ascii c in (48 <=? n)%nat && (n <=? 57)%nat.

Definition isspace (c : ascii) : bool :=
  let n := nat_of_ascii c in
  (n =? 32)%nat || ((9 <=? n)%nat && (n <=? 13)%nat).

Definition toupper (c : ascii) : ascii :=
  let n := nat_of_ascii c in
  if (97 <=? n)%nat && (n <=? 122)%nat then ascii_of_nat (n - 32) else c.

Fixpoint string_map (f : ascii -> ascii) (s : string) : string :=
  match s with
  | EmptyString => EmptyString
  | String c r => String (f c) (string_map f r)
  end.

(** *** Decimal output of [operator<<(int)] *)

Definition digit_char (d : Z) : ascii := ascii_of_nat (48 + Z.to_nat d).

(** The decimal digits of [n], most significant first, in front of [acc];
    [fuel] bounds the number of digits produced. *)
Fixpoint decimal (fuel : nat) (n : Z) (acc : string) : string :=
  match fuel with
  | O => acc
  | S f =>
      let acc' := String (digit_char (n mod 10)) acc in
      if n <? 10 then acc' else decimal f (n / 10) acc'
  end.

(** An [int] has at most ten decimal digits. *)
Definition print_int (x : Z) : string :=
  if x <? 0 then String "-" (decimal 10 (- x) "") else decimal 10 x "".

(** *** [std::stoul] *)

Definition ULONG_MAX : Z := 2 ^ 64 - 1.

Fixpoint skip_space (s : string) : string :=
  match s with
  | String c r => if isspace c then skip_space r else s
  | EmptyString => s
  end.

(** The value of the longest prefix of decimal digits, accumulated from
    [acc]. *)
Fixpoint digits_value (s : string) (acc : Z) : Z :=
  match s with
  | String c r =>
      if isdigit c
      then digits_value r (acc * 10 + (Z.of_nat (nat_of_ascii c) - 48))
      else acc
  | EmptyString => acc
  end.

(** [std::stoul(s)] in base 10: leading white space, an optional sign, then
    digits.  [None] stands for a thrown exception: [invalid_argument] when
    no digit follows, [out_of_range] when the value exceeds [ULONG_MAX].  A
    minus sign negates in [unsigned long]. *)
Definition stoul (s : string) : option Z :=
  let s1 := skip_space s in
  let '(neg, s2) :=
    match s1 with
    | String "-" r => (true, r)
    | String "+" r => (false, r)
    | _ => (false, s1)
    end in
  match s2 with
  | String c _ =>
      if isdigit c then
        let v := digits_value s2 0 in
        if ULONG_MAX <? v then None
        else Some (if neg : bool then uint64 (- v) else v)
      else None
  | EmptyString => None
  end.

(** *** The handle of a tty *)

(** The loop that stops [i] at the first digit of [tty], or at its length
    when it has none. *)
Fixpoint first_digit (tty : string) : nat :=
  match tty with
  | EmptyString => 0%nat
  | String c r => if isdigit c then 0%nat else S (first_digit r)
  end.

(** [tty.substr(i)] for [i <= tty.length()]. *)
Fixpoint substr (i : nat) (s : string) : string :=
  match i, s with
  | O, _ => s
  | S k, String _ r => substr k r
  | S _, EmptyString => EmptyString
  end.

(** The [try] block of [Find]: the number after the first digit, converted
    to a handle, plus [HANDLE_OFFSET].  [None] when [stoul] throws and the
    device is tossed. *)
Definition tty_handle (tty : string) : option Z :=
  let i := first_digit tty in
  match stoul (substr i tty) with
  | None => None
  | Some n =>
      let handle := neodevice_handle n in
      Some (neodevice_handle (handle + HANDLE_OFFSET))
  end.

(** [CDCACM::HandleToTTY]. *)
Definition HandleToTTY (handle : Z) : string :=
  ("/dev/ttyACM" ++ print_int (int32 (handle - HANDLE_OFFSET)))%string.

(** *** The last loop of [CDCACM::Find] *)

(** The fields of [FoundDevice] the loop fills in; the driver factory is
    the same closure for every device. *)
Record FoundDevice : Type := mkFoundDevice {
  handle : Z;
  productId : Z;
  serial : string
}.

Section Find.

(** The environment: the first line of the file at a path (empty when
    the file cannot be read), and [sizeof(device.serial)], declared
    outside the sources at hand. *)
Variable first_line : string -> string.
Variable serial_size : nat.

(** [USBSerialGetter]: [None] when it did not succeed, otherwise the
    serial number in upper case. *)
Definition USBSerialGetter (usbid : string) : option string :=
  match index 0 ":" usbid with
  | None => None
  | Some colonpos =>
      let path :=
        ("/sys/bus/usb/devices/" ++ substring 0 colonpos usbid
           ++ "/serial")%string in
      Some (string_map toupper (first_line path))
  end.

(** One iteration over an entry [(usb, (tty, ttyPid))] of [foundttys]:
    the device is pushed onto [found] unless the serial number or the
    handle could not be obtained. *)
Definition discover (found : list FoundDevice)
           (entry : string * (string * Z)) : list FoundDevice :=
  let '(usb, (tty, ttyPid)) := entry in
  match USBSerialGetter usb with
  | None => found
  | Some s =>
      match tty_handle tty with
      | None => found
      | Some h =>
          found ++ [ {| handle := h;
                        productId := ttyPid;
                        serial := substring 0 (serial_size - 1) s |} ]
      end
  end.

(** The loop over [foundttys], in the key order of the map. *)
Definition Find_devices (foundttys : list (string * (string * Z)))
           (found : list FoundDevice) : list FoundDevice :=
  fold_left discover foundttys found.

End Find.

(** The name of the [n]-th ACM tty. *)
Definition tty_name (n : Z) : string :=
  ("ttyACM" ++ print_int n)%string.

(** The round trip between the number of a tty and its handle: an entry of
    [foundttys] for the tty [ttyACM<n>] whose serial number could be read
    yields one device, kept in the result of the loop; its handle is [n]
    plus [HANDLE_OFFSET], which is not the undefined handle 0, and
    [HandleToTTY] maps the handle back to the device file of the tty. *)
Definition tty_round_trip (n : Z) : Prop :=
  forall first_line serial_size found usb pid s,
    USBSerialGetter first_line usb = Some s ->
    exists dev,
      discover first_line serial_size found (usb, (tty_name n, pid))
      = found ++ [dev]
      /\ (forall foundttys,
             In (usb, (tty_name n, pid)) foundttys ->
             In dev (Find_devices first_line serial_size foundttys found))
      /\ handle dev = n + HANDLE_OFFSET
      /\ handle dev <> 0
      /\ HandleToTTY (handle dev) = ("/dev/" ++ tty_name n)%string.

End CDCACM.

(** ** The rest of [CDCACM::Find] *)

Module CDCACMFind.
Import Width CDCACM.

Definition uint16 (x : Z) : Z := x mod 2 ^ 16.

(** *** The file system as [Find] reads it *)

(** [Directory::Listing]: the name and the [d_type] of a directory entry. *)
Record Listing : Type := mkListing {
  getName : string;
  getType : Z
}.

(** [DT_LNK] of <dirent.h>. *)
Definition DT_LNK : Z := 10.

(** What the calls of [opendir] and [std::ifstream] find: for a directory
    that can be opened, the entries [readdir] returns in turn, the entries
    [.] and [..] among them; for a file that can be opened, the characters
    that can be read from it, and whether the read that follows them fails
    instead of reporting the end of the file. *)
Record FileSystem : Type := mkFileSystem {
  opendir : string -> option (list Listing);
  content : string -> option string;
  read_error : string -> bool
}.

(** [Directory::ls]: every entry but [.] and [..], in the order read. *)
Definition ls (entries : list Listing) : list Listing :=
  filter (fun e => negb (getName e =? ".")%string
                   && negb (getName e =? "..")%string) entries.

(** *** Input streams *)

(** An [std::ifstream]: the characters still to be read, the state bits
    [eofbit], [failbit] and [badbit], and whether the file buffer fails,
    rather than reports the end of the file, once the characters are used
    up. *)
Record ifstream : Type := mkStream {
  unread : string;
  eofbit : bool;
  failbit : bool;
  badbit : bool;
  broken : bool
}.

(** The constructor: a file that cannot be opened sets [failbit]. *)
Definition open (fs : FileSystem) (path : string) : ifstream :=
  match content fs path with
  | Some c =>
      {| unread := c; eofbit := false; failbit := false; badbit := false;
         broken := read_error fs path |}
  | None =>
      {| unread := EmptyString; eofbit := false; failbit := true;
         badbit := false; broken := false |}
  end.

Definition good (stream : ifstream) : bool :=
  negb (eofbit stream) && negb (failbit stream) && negb (badbit stream).

(** The characters up to the first newline, and what follows the newline,
    if there is one. *)
Fixpoint take_line (s : string) : string * option string :=
  match s with
  | EmptyString => (EmptyString, None)
  | String c r =>
      if (c =? "010")%char then (EmptyString, Some r)
      else let '(l, k) := take_line r in (String c l, k)
  end.

(** [std::getline(stream, str, '\n')].  On a stream that is not good the
    sentry fails: [failbit] is set and [str] is left alone.  Otherwise
    [str] is erased and filled up to the delimiter, which is extracted and
    dropped.  Reaching the end of the file sets [eofbit]; a read that fails
    throws inside [getline], which catches the exception and sets [badbit],
    never [eofbit], [str] keeping what was extracted before.  In both cases
    [failbit] is set as well when nothing was extracted. *)
Definition getline (stream : ifstream) (str : string)
  : ifstream * string :=
  if good stream then
    match take_line (unread stream) with
    | (l, Some r) =>
        ({| unread := r; eofbit := false; failbit := false; badbit := false;
            broken := broken stream |}, l)
    | (l, None) =>
        if broken stream
        then ({| unread := EmptyString; eofbit := false;
                 failbit := (l =? EmptyString)%string; badbit := true;
                 broken := true |}, l)
        else ({| unread := EmptyString; eofbit := true;
                 failbit := (l =? EmptyString)%string; badbit := false;
                 broken := false |}, l)
    end
  else ({| unread := unread stream; eofbit := eofbit stream;
           failbit := true; badbit := badbit stream;
           broken := broken stream |}, str).

(** A stream that was opened, has set no state bit, and whose reads all
    succeed. *)
Definition sound_stream (c : string) : ifstream :=
  {| unread := c; eofbit := false; failbit := false; badbit := false;
     broken := false |}.

(** What [USBSerialGetter] reads: the first line of the file at a path, the
    empty string when the file cannot be opened. *)
Definition first_line (fs : FileSystem) (path : string) : string :=
  snd (getline (open fs path) EmptyString).

(** *** The product line *)

Definition matchString : string := "PRODUCT=".

(** The [do ... while] loop that reads lines until one contains
    [matchString] or the stream is at its end: the last line read and the
    position of [matchString] in it.  [None] when the loop has not ended
    after [fuel] iterations. *)
Fixpoint read_product_line (fuel : nat) (fs : ifstream) (productLine : string)
  : option (string * option nat) :=
  match fuel with
  | O => None
  | S f =>
      let '(fs1, line) := getline fs productLine in
      match index 0 matchString line with
      | Some pos => Some (line, Some pos)
      | None =>
          if negb (eofbit fs1) then read_product_line f fs1 line
          else Some (line, None)
      end
  end.

(** [std::string::find(char, pos)]. *)
Fixpoint find_char (c : ascii) (pos : nat) (s : string) : option nat :=
  match s with
  | EmptyString => None
  | String x r =>
      match pos with
      | O => if (x =? c)%char then Some 0%nat
             else option_map S (find_char c 0 r)
      | S p => option_map S (find_char c p r)
      end
  end.

(** The value of a hexadecimal digit. *)
Definition hex_value (c : ascii) : option Z :=
  let n := nat_of_ascii c in
  if (48 <=? n)%nat && (n <=? 57)%nat then Some (Z.of_nat n - 48)
  else if (97 <=? n)%nat && (n <=? 102)%nat then Some (Z.of_nat n - 87)
  else if (65 <=? n)%nat && (n <=? 70)%nat then Some (Z.of_nat n - 55)
  else None.

Definition isxdigit (c : ascii) : bool :=
  match hex_value c with Some _ => true | None => false end.

Fixpoint hex_digits_value (s : string) (acc : Z) : Z :=
  match s with
  | String c r =>
      match hex_value c with
      | Some d => hex_digits_value r (acc * 16 + d)
      | None => acc
      end
  | EmptyString => acc
  end.

(** The optional prefix [0x] or [0X] of base 16, skipped when a digit
    follows it. *)
Definition skip_0x (s : string) : string :=
  match s with
  | String "0" (String x (String h r)) =>
      if ((x =? "x")%char || (x =? "X")%char) && isxdigit h
      then String h r else s
  | _ => s
  end.

(** [std::stoul(s, nullptr, 16)]; [None] stands for a thrown exception. *)
Definition stoul16 (s : string) : option Z :=
  let s1 := skip_space s in
  let '(neg, s2) :=
    match s1 with
    | String "-" r => (true, r)
    | String "+" r => (false, r)
    | _ => (false, s1)
    end in
  let s3 := skip_0x s2 in
  match s3 with
  | String c _ =>
      if isxdigit c then
        let v := hex_digits_value s3 0 in
        if ULONG_MAX <? v then None
        else Some (if neg : bool then uint64 (- v) else v)
      else None
  | EmptyString => None
  end.

(** The vendor and product ids of a product line such as
    [PRODUCT=93c/1101/100], given the position at which [matchString] was
    found in it.  [None] when the entry is erased from the map: no product
    line at position 0, no slash, or a number that does not parse. *)
Definition product_ids (productLine : string) (pos : option nat)
  : option (Z * Z) :=
  match pos with
  | Some O =>
      match find_char "/" (String.length matchString) productLine with
      | None => None
      | Some firstSlashPos =>
          let pidpos := S firstSlashPos in
          let vidstr :=
            substring (String.length matchString)
                      (firstSlashPos - String.length matchString)
                      productLine in
          let pidstr :=
            match find_char "/" pidpos productLine with
            | Some next => substring pidpos (next - pidpos) productLine
            | None => substr pidpos productLine
            end in
          match stoul16 vidstr with
          | None => None
          | Some v =>
              match stoul16 pidstr with
              | None => None
              | Some p => Some (uint16 v, uint16 p)
              end
          end
      end
  | _ => None
  end.

(** *** The map from USB directory to tty and product id *)

(** [std::map::insert] on a map kept as a list in increasing key order: an
    existing key keeps its value. *)
Fixpoint map_insert {V : Type} (k : string) (v : V) (m : list (string * V))
  : list (string * V) :=
  match m with
  | [] => [(k, v)]
  | (k', v') :: r =>
      match String.compare k k' with
      | Lt => (k, v) :: m
      | Eq => m
      | Gt => (k', v') :: map_insert k v r
      end
  end.

(** [name[0]]: the first character, the terminating null of an empty
    name. *)
Definition first_char (s : string) : ascii :=
  match s with
  | String c _ => c
  | EmptyString => zero
  end.

(** The first loop: the names of the symbolic links whose first character
    is a digit. *)
Definition foundusbs (entries : list Listing) : list string :=
  map getName
      (filter (fun e => isdigit (first_char (getName e))
                        && (getType e =? DT_LNK)) entries).

Section Find.

(** Declared outside the sources at hand: [INTREPID_USB_VENDOR_ID] and
    [sizeof(device.serial)]. *)
Variable INTREPID_USB_VENDOR_ID : Z.
Variable serial_size : nat.

Variable fs : FileSystem.

(** The tty of a USB directory: the one entry of its [tty] directory. *)
Definition tty_of (usb : string) : option string :=
  match opendir fs ("/sys/bus/usb/drivers/cdc_acm/" ++ usb ++ "/tty")%string
  with
  | None => None
  | Some entries =>
      match ls entries with
      | [listing] => Some (getName listing)
      | _ => None
      end
  end.

(** The second loop. *)
Definition foundttys (usbs : list string) : list (string * (string * Z)) :=
  fold_left (fun m usb =>
               match tty_of usb with
               | Some tty => map_insert usb (tty, 0) m
               | None => m
               end) usbs [].

(** One iteration of the third loop.  [None]: the loop over the lines has
    not ended within [fuel]; [Some None]: the entry is erased;
    [Some (Some e)]: the entry stays, with its product id set. *)
Definition check_product (fuel : nat) (entry : string * (string * Z))
  : option (option (string * (string * Z))) :=
  let '(usb, (tty, _)) := entry in
  let path := ("/sys/class/tty/" ++ tty ++ "/device/uevent")%string in
  match read_product_line fuel (open fs path) EmptyString with
  | None => None
  | Some (productLine, pos) =>
      match product_ids productLine pos with
      | None => Some None
      | Some (vid, pid) =>
          if negb (vid =? INTREPID_USB_VENDOR_ID) then Some None
          else Some (Some (usb, (tty, pid)))
      end
  end.

(** The third loop, over the map in key order. *)
Fixpoint keep_products (fuel : nat) (m : list (string * (string * Z)))
  : option (list (string * (string * Z))) :=
  match m with
  | [] => Some []
  | entry :: rest =>
      match check_product fuel entry with
      | None => None
      | Some kept =>
          match keep_products fuel rest with
          | None => None
          | Some rest' =>
              Some (match kept with
                    | Some e => e :: rest'
                    | None => rest'
                    end)
          end
      end
  end.

(** [CDCACM::Find].  [None] when a loop over the lines of a file has not
    ended within [fuel]. *)
Definition Find (fuel : nat) (found : list FoundDevice)
  : option (list FoundDevice) :=
  match opendir fs "/sys/bus/usb/drivers/cdc_acm" with
  | None => Some found
  | Some entries =>
      match keep_products fuel (foundttys (foundusbs (ls entries))) with
      | None => None
      | Some kept =>
          Some (Find_devices (first_line fs) serial_size kept found)
      end
  end.

End Find.

(** *** The product line as the kernel prints it *)

Definition hex_char (d : Z) : ascii :=
  if d <? 10 then ascii_of_nat (48 + Z.to_nat d)
  else ascii_of_nat (87 + Z.to_nat d).

(** The hexadecimal digits of [n], most significant first, in front of
    [acc]. *)
Fixpoint hexadecimal (fuel : nat) (n : Z) (acc : string) : string :=
  match fuel with
  | O => acc
  | S f =>
      let acc' := String (hex_char (n mod 16)) acc in
      if n <? 16 then acc' else hexadecimal f (n / 16) acc'
  end.

(** A 16-bit number in the format [%x]. *)
Definition print_hex (x : Z) : string := hexadecimal 4 x EmptyString.

(** The line [PRODUCT=%x/%x/%x] of a uevent file. *)
Definition product_line (vid pid bcd : Z) : string :=
  (matchString ++ print_hex vid ++ "/" ++ print_hex pid ++ "/"
     ++ print_hex bcd)%string.

(** *** Text files *)

(** The newline character, and the text made of the given lines, each
    ended by a newline. *)
Definition newline : ascii := "010"%char.

Fixpoint unlines (lines : list string) : string :=
  match lines with
  | [] => EmptyString
  | l :: rest => (l ++ String newline (unlines rest))%string
  end.

(** A string without the character [c]. *)
Definition lacks (c : ascii) (s : string) : Prop := find_char c 0 s = None.

(** A string of hexadecimal digits only. *)
Fixpoint all_xdigit (s : string) : bool :=
  match s with
  | EmptyString => true
  | String c r => isxdigit c && all_xdigit r
  end.


End CDCACMFind.

(** ** Sample values *)

Module Samples.
Import PlasionDisk.

(** A communication object with one subscription of another client. *)
Definition busy : Communication :=
  {| messageCallbacks :=
       [ mkSubscription 0 (mkFilter (OtherNetID 1)) (ClientHandler 0) ];
     messageCallbackIDCounter := 1;
     written := [] |}.

(** A destination filled with zeroes. *)
Definition zeroed : Memory := fun _ => x00.

(** A minimum granularity of 512 bytes with a maximum block of 8192. *)
Definition bounds : Z * Z := (512, 8192).

(** Sectors of 512 bytes. *)
Definition sector_512 : Z := 512.

(** A command byte. *)
Definition opcode : Z := 240.

(** The bytes 1, 2, ..., as many as asked for. *)
Definition ramp (n : nat) : list byte :=
  map (fun k => match Byte.of_nat (k mod 256) with
                | Some b => b
                | None => x00
                end) (seq 1 n).

End Samples.

(** ** A sample of sysfs *)

Module FindSamples.
Import CDCACM CDCACMFind.

(** The vendor number of the product line quoted in [Find], [93c]. *)
Definition vendor_93c : Z := 2364.

(** The uevent file of an interface of a device with product number
    [1105]. *)
Definition uevent_text : string :=
  (unlines ["DEVTYPE=usb_interface"; "DRIVER=cdc_acm"]
     ++ product_line 2364 4357 256
     ++ String newline (unlines ["TYPE=2/0/0"]))%string.

Definition driver_entries : list Listing :=
  [ mkListing "." 4; mkListing ".." 4; mkListing "7-2:1.0" 10;
    mkListing "7-2:1.1" 10; mkListing "bind" 8; mkListing "module" 10 ].

(** A driver directory with one device, its tty [ttyACM0], its uevent file
    if [with_uevent] holds, and its serial number file. *)
Definition sysfs (with_uevent : bool) : FileSystem :=
  {| opendir := fun path =>
       if (path =? "/sys/bus/usb/drivers/cdc_acm")%string
       then Some driver_entries
       else if (path =? "/sys/bus/usb/drivers/cdc_acm/7-2:1.0/tty")%string
       then Some [ mkListing "." 4; mkListing ".." 4; mkListing "ttyACM0" 4 ]
       else None;
     content := fun path =>
       if (path =? "/sys/class/tty/ttyACM0/device/uevent")%string
       then (if with_uevent then Some uevent_text else None)
       else if (path =? "/sys/bus/usb/devices/7-2/serial")%string
       then Some (String "r" (String "j" (String "0" (String "0"
                    (String "4" (String "2" (String newline "")))))))
       else None;
     read_error := fun _ => false |}.


(** The device [Find] builds from it. *)
Definition jupiter : FoundDevice :=
  {| handle := 10; productId := 4357; serial := "RJ0042" |}.

End FindSamples.

(** * Properties *)

(** ** Fixed-width arithmetic *)

Module WidthFacts.
Import Width.

Lemma uint32_small x : 0 <= x < 2 ^ 32 -> uint32 x = x.
Proof. intros H. unfold uint32. now apply Z.mod_small. Qed.

Lemma uint64_small x : 0 <= x < 2 ^ 64 -> uint64 x = x.
Proof. intros H. unfold uint64. now apply Z.mod_small. Qed.

Lemma uint32_range x : 0 <= uint32 x < 2 ^ 32.
Proof. unfold uint32. apply Z.mod_pos_bound. lia. Qed.

Lemma uint32_le x : 0 <= x -> uint32 x <= x.
Proof. intros H. unfold uint32. apply Z.mod_le; lia. Qed.

(** A 64-bit value survives the round trip through [uint32_t] exactly when
    it fits 32 bits. *)
Lemma uint32_fixed x : 0 <= x -> (x = uint32 x <-> x < 2 ^ 32).
Proof.
  intros H. split; intros E.
  - rewrite E. apply uint32_range.
  - symmetry. apply uint32_small. lia.
Qed.

Lemma int32_small x : - 2 ^ 31 <= x < 2 ^ 31 -> int32 x = x.
Proof. intros H. unfold int32. rewrite Z.mod_small; lia. Qed.

(** [(x >> n) & 0xFF], converted to [uint8_t], is byte [n / 8] of [x]. *)
Lemma byte_of_shift x n :
  0 <= n -> uint8 (Z.land (Z.shiftr x n) 255) = (x / 2 ^ n) mod 256.
Proof.
  intros H. change 255 with (Z.ones 8).
  rewrite Z.land_ones by lia. rewrite Z.shiftr_div_pow2 by assumption.
  unfold uint8. change (2 ^ 8) with 256.
  apply Z.mod_small. apply Z.mod_pos_bound. lia.
Qed.

Lemma byte_of_low x : uint8 (Z.land x 255) = x mod 256.
Proof.
  pose proof (byte_of_shift x 0 (Z.le_refl 0)) as H.
  rewrite Z.shiftr_0_r, Z.pow_0_r, Z.div_1_r in H. exact H.
Qed.

(** Decoding the [n] low bytes gives the value modulo [256^n]. *)
Lemma le_value_bytes n x :
  le_value (le_bytes n x) = x mod 256 ^ Z.of_nat n.
Proof.
  revert x. induction n as [|n IH]; intros x.
  - simpl. now rewrite Z.mod_1_r.
  - cbn [le_bytes le_value]. rewrite IH.
    replace (Z.of_nat (S n)) with (1 + Z.of_nat n) by lia.
    rewrite Z.pow_add_r by lia. change (256 ^ 1) with 256.
    assert (0 < 256 ^ Z.of_nat n) by (apply Z.pow_pos_nonneg; lia).
    rewrite Z.rem_mul_r by lia. reflexivity.
Qed.

End WidthFacts.

(** ** The aligned disk read *)

Module PlasionDiskFacts.
Import Width WidthFacts PlasionDisk.

(** *** The registry *)

Lemma filter_issued n f h (l : list Subscription) :
  Forall (fun s => (sub_id s < n)%nat) l ->
  filter (fun s => negb (Nat.eqb (sub_id s) n)) (l ++ [mkSubscription n f h])
  = l.
Proof.
  induction 1 as [|s l Hs Hl IH]; simpl.
  - now rewrite Nat.eqb_refl.
  - destruct (Nat.eqb_spec (sub_id s) n) as [E|_]; [lia|].
    simpl. now rewrite IH.
Qed.

(** Removing the subscription just added restores the registry, whatever
    was written in between. *)
Lemma remove_added com f h frame :
  registry_wf com ->
  messageCallbacks
    (removeMessageCallback
       (rawWrite (snd (addMessageCallback com f h)) frame)
       (fst (addMessageCallback com f h)))
  = messageCallbacks com.
Proof. intros Hwf. simpl. now apply filter_issued. Qed.

Lemma add_preserves_wf com f h :
  registry_wf com -> registry_wf (snd (addMessageCallback com f h)).
Proof.
  unfold registry_wf. intros Hwf. simpl. apply Forall_app. split.
  - eapply Forall_impl; [|exact Hwf]. simpl. intros s Hs. lia.
  - constructor; [simpl; lia | constructor].
Qed.

Lemma remove_preserves_wf com id :
  registry_wf com -> registry_wf (removeMessageCallback com id).
Proof.
  unfold registry_wf. intros Hwf. simpl.
  apply Forall_forall. intros s Hs. apply filter_In in Hs.
  rewrite Forall_forall in Hwf. now apply Hwf.
Qed.

(** *** The wait *)

(** [wait_for] returns the value its predicate has on the state it leaves. *)
Lemma wait_for_pred amount sleeps t :
  snd (wait_for amount sleeps t)
  = wait_pred amount (fst (wait_for amount sleeps t)).
Proof.
  revert t. induction sleeps as [|ms rest IH]; intros t; simpl.
  - reflexivity.
  - destruct (wait_pred amount t) eqn:E; simpl; [now rewrite E | apply IH].
Qed.

Lemma wait_pred_terminal amount t :
  wait_pred amount t = false <-> terminal_state amount t = TimedOut.
Proof.
  unfold wait_pred, terminal_state.
  destruct (error t), (copied t =? amount); simpl; split; congruence.
Qed.

Section Driver.

Variable getBlockSizeBounds : Z * Z.
Variable SectorSize : Z.
Variable HostPC_from_SDCC1 : Z.

Hypothesis SectorSize_pos : 0 < SectorSize.


(** The sector check of the code is the bound on the quotient. *)
Lemma sector_check pos :
  0 <= pos ->
  negb (pos / SectorSize =? uint32 (pos / SectorSize)) = false
  <-> pos / SectorSize < 2 ^ 32.
Proof.
  intros Hpos.
  assert (0 <= pos / SectorSize) by (apply Z.div_pos; lia).
  rewrite negb_false_iff, Z.eqb_eq. now apply uint32_fixed.
Qed.

(** What a request that passes every check does. *)
Lemma read_validated com pos dest amount sleeps :
  0 <= pos -> validated getBlockSizeBounds SectorSize pos amount ->
  readLogicalDiskAligned getBlockSizeBounds SectorSize HostPC_from_SDCC1
                         com pos dest amount sleeps
  = let w := wait_for amount sleeps (fresh dest) in
    {| result := if snd w then Some amount else None;
       com_after :=
         removeMessageCallback
           (rawWrite
              (snd (addMessageCallback com NeoMemorySDRead_filter
                                       DiskReadCallback))
              (command_frame HostPC_from_SDCC1 (pos / SectorSize) amount))
           (fst (addMessageCallback com NeoMemorySDRead_filter
                                    DiskReadCallback));
       txn := Some (fst w) |}.
Proof.
  intros Hpos [[Hmax [Hlen Hoff]] Hsec].
  unfold readLogicalDiskAligned.
  replace (snd getBlockSizeBounds <? amount) with false
    by (symmetry; apply Z.ltb_ge; exact Hmax).
  rewrite Hlen, Hoff. simpl negb. cbv iota.
  pose proof (proj2 (sector_check pos Hpos) Hsec) as Hchk.
  rewrite Hchk.
  assert (Hu : uint32 (pos / SectorSize) = pos / SectorSize).
  { apply negb_false_iff, Z.eqb_eq in Hchk. now symmetry. }
  rewrite Hu. cbv zeta. unfold addMessageCallback at 1.
  destruct (wait_for amount sleeps (fresh dest)) as [t woke].
  destruct woke; reflexivity.
Qed.

(** What a request that fails a check does. *)
Lemma read_rejected com pos dest amount sleeps :
  0 <= pos -> ~ validated getBlockSizeBounds SectorSize pos amount ->
  readLogicalDiskAligned getBlockSizeBounds SectorSize HostPC_from_SDCC1
                         com pos dest amount sleeps
  = failure com.
Proof.
  intros Hpos Hn. unfold readLogicalDiskAligned.
  destruct (snd getBlockSizeBounds <? amount) eqn:E1; [reflexivity|].
  destruct (amount mod fst getBlockSizeBounds =? 0) eqn:E2;
    [|reflexivity].
  destruct (pos mod fst getBlockSizeBounds =? 0) eqn:E3; [|reflexivity].
  simpl negb. cbv iota zeta.
  destruct (negb (pos / SectorSize =? uint32 (pos / SectorSize))) eqn:E4;
    [reflexivity|].
  exfalso. apply Hn. repeat split.
  - now apply Z.ltb_ge.
  - now apply Z.eqb_eq.
  - now apply Z.eqb_eq.
  - now apply sector_check.
Qed.

(** The frame is the command byte, the four low bytes of the sector and
    the two low bytes of the amount, each least significant byte first. *)
Lemma command_frame_le sector amount :
  command_frame HostPC_from_SDCC1 sector amount
  = uint8 HostPC_from_SDCC1 :: le_bytes 4 sector ++ le_bytes 2 amount.
Proof.
  unfold command_frame. rewrite !byte_of_shift by lia.
  rewrite !byte_of_low. simpl le_bytes. simpl app.
  rewrite !Z.div_div by lia. reflexivity.
Qed.

(** A validated request returns the amount exactly when the predicate of
    the wait holds on wake-up, that is in the states [Complete] and
    [Errored] alike, and nothing exactly when it timed out. *)
Lemma result_iff_not_timed_out com pos dest amount sleeps t :
  0 <= pos -> validated getBlockSizeBounds SectorSize pos amount ->
  let o :=
    readLogicalDiskAligned getBlockSizeBounds SectorSize HostPC_from_SDCC1
                           com pos dest amount sleeps in
  txn o = Some t ->
  (result o = Some amount <-> terminal_state amount t <> TimedOut)
  /\ (result o = None <-> terminal_state amount t = TimedOut).
Proof.
  intros Hpos Hv. cbv zeta.
  rewrite (read_validated _ _ _ _ _ Hpos Hv). cbv zeta.
  cbn [txn result]. intros E. injection E as <-.
  rewrite wait_for_pred, <- wait_pred_terminal.
  destruct (wait_pred amount (fst (wait_for amount sleeps (fresh dest))));
    repeat split; congruence.
Qed.

(** Whatever the request, the call returns nothing or the whole amount. *)
Lemma result_is_all_or_nothing com pos dest amount sleeps :
  let o :=
    readLogicalDiskAligned getBlockSizeBounds SectorSize HostPC_from_SDCC1
                           com pos dest amount sleeps in
  result o = None \/ result o = Some amount.
Proof.
  cbv zeta. unfold readLogicalDiskAligned.
  repeat match goal with
         | |- context [if ?b then failure _ else _] =>
             destruct b; [left; reflexivity|]
         end.
  cbv zeta. unfold addMessageCallback.
  destruct (wait_for amount sleeps (fresh dest)) as [t woke].
  destruct woke; simpl; auto.
Qed.

(** C2. A request whose length exceeds the maximum block size, or whose
    length or offset is not a multiple of the minimum granularity, fails
    at once: the result is empty, no frame has been written, no
    subscription has been registered and no transaction state exists. *)
Theorem rejected_request_does_no_io com pos dest amount sleeps :
  snd getBlockSizeBounds < amount
  \/ amount mod fst getBlockSizeBounds <> 0
  \/ pos mod fst getBlockSizeBounds <> 0 ->
  let o :=
    readLogicalDiskAligned getBlockSizeBounds SectorSize HostPC_from_SDCC1
                           com pos dest amount sleeps in
  result o = None
  /\ written (com_after o) = written com
  /\ messageCallbacks (com_after o) = messageCallbacks com
  /\ messageCallbackIDCounter (com_after o) = messageCallbackIDCounter com
  /\ txn o = None.
Proof.
  intros H. cbv zeta.
  assert (E : readLogicalDiskAligned getBlockSizeBounds SectorSize
                                      HostPC_from_SDCC1 com pos dest amount
                                      sleeps
              = failure com).
  { unfold readLogicalDiskAligned.
    destruct (snd getBlockSizeBounds <? amount) eqn:E1; [reflexivity|].
    apply Z.ltb_ge in E1.
    destruct (amount mod fst getBlockSizeBounds =? 0) eqn:E2;
      [|reflexivity].
    apply Z.eqb_eq in E2.
    destruct (pos mod fst getBlockSizeBounds =? 0) eqn:E3; [|reflexivity].
    apply Z.eqb_eq in E3. lia. }
  rewrite E. simpl. auto.
Qed.

(** C3. A validated request writes exactly one frame: the command byte,
    then the sector index on four bytes, least significant first, then
    the low sixteen bits of the requested length on two bytes, least
    significant first.  The four sector bytes decode to the sector; the
    two length bytes decode to the length whenever it is below 65536.
    Offset 0 and length 1024 give [opcode, 0, 0, 0, 0, 0x00, 0x04]. *)
Theorem one_command_frame com pos dest amount sleeps :
  0 <= pos -> 0 <= amount -> validated getBlockSizeBounds SectorSize pos amount ->
  let o :=
    readLogicalDiskAligned getBlockSizeBounds SectorSize HostPC_from_SDCC1
                           com pos dest amount sleeps in
  let sector := pos / SectorSize in
  written (com_after o)
  = written com
      ++ [uint8 HostPC_from_SDCC1 :: le_bytes 4 sector ++ le_bytes 2 amount]
  /\ le_value (le_bytes 4 sector) = sector
  /\ le_value (le_bytes 2 amount) = amount mod 2 ^ 16
  /\ (amount < 2 ^ 16 -> le_value (le_bytes 2 amount) = amount)
  /\ (pos = 0 -> amount = 1024 ->
      written (com_after o)
      = written com ++ [[uint8 HostPC_from_SDCC1; 0; 0; 0; 0; 0; 4]]).
Proof.
  intros Hpos Hamt Hv. cbv zeta.
  rewrite (read_validated _ _ _ _ _ Hpos Hv). cbv zeta.
  cbn [com_after removeMessageCallback rawWrite addMessageCallback
       written snd fst].
  rewrite command_frame_le.
  assert (Hs : 0 <= pos / SectorSize) by (apply Z.div_pos; lia).
  destruct Hv as [_ Hsec].
  repeat split.
  - rewrite le_value_bytes. apply Z.mod_small. simpl Z.of_nat.
    change (256 ^ 4) with (2 ^ 32). lia.
  - rewrite le_value_bytes. reflexivity.
  - intros Hlt. rewrite le_value_bytes. apply Z.mod_small.
    simpl Z.of_nat. change (256 ^ 2) with (2 ^ 16). lia.
  - intros -> ->. rewrite Z.div_0_l by lia. reflexivity.
Qed.

(** C6. For a request that meets the three preconditions, the sector is
    the quotient of the offset by the sector size; the quotient fits 64
    bits, so the unsigned division is exact.  When it does not fit 32
    bits the call fails and leaves the communication object as it was,
    no frame written; when it fits, the one frame written carries it in
    its sector field. *)
Theorem sector_translation com pos dest amount sleeps :
  0 <= pos < 2 ^ 64 -> preconditions getBlockSizeBounds pos amount ->
  let o :=
    readLogicalDiskAligned getBlockSizeBounds SectorSize HostPC_from_SDCC1
                           com pos dest amount sleeps in
  let sector := pos / SectorSize in
  uint64 sector = sector
  /\ (2 ^ 32 <= sector ->
      result o = None /\ com_after o = com /\ txn o = None)
  /\ (sector < 2 ^ 32 ->
      exists fr,
        written (com_after o) = written com ++ [fr]
        /\ le_value (firstn 4 (skipn 1 fr)) = sector).
Proof.
  intros Hpos Hpre. cbv zeta.
  assert (Hs : 0 <= pos / SectorSize) by (apply Z.div_pos; lia).
  assert (Hq : pos / SectorSize <= pos).
  { apply Z.div_le_upper_bound; [lia|]. nia. }
  repeat split.
  - apply uint64_small. lia.
  - rewrite read_rejected; [reflexivity | lia |].
    intros [_ Hlt]. lia.
  - rewrite read_rejected; [reflexivity | lia |].
    intros [_ Hlt]. lia.
  - rewrite read_rejected; [reflexivity | lia |].
    intros [_ Hlt]. lia.
  - intros Hlt.
    assert (Hv : validated getBlockSizeBounds SectorSize pos amount) by (split; assumption).
    rewrite (read_validated _ _ _ _ _ (proj1 Hpos) Hv). cbv zeta.
    cbn [com_after removeMessageCallback rawWrite addMessageCallback
         written snd fst].
    rewrite command_frame_le. eexists. split; [reflexivity|].
    cbn [skipn firstn le_bytes app].
    change (le_value (le_bytes 4 (pos / SectorSize)) = pos / SectorSize).
    rewrite le_value_bytes. apply Z.mod_small. simpl Z.of_nat.
    change (256 ^ 4) with (2 ^ 32). lia.
Qed.

(** C7. Once a request has passed validation, the call removes its
    subscription before it returns, whatever arrives during the wait and
    whichever terminal state the transaction reaches: the subscriptions
    of the registry after the call are those before it. *)
Theorem subscription_removed_on_return com pos dest amount sleeps :
  registry_wf com -> 0 <= pos -> validated getBlockSizeBounds SectorSize pos amount ->
  let o :=
    readLogicalDiskAligned getBlockSizeBounds SectorSize HostPC_from_SDCC1
                           com pos dest amount sleeps in
  messageCallbacks (com_after o) = messageCallbacks com
  /\ (forall s, In s (messageCallbacks (com_after o)) ->
                sub_id s <> messageCallbackIDCounter com)
  /\ registry_wf (com_after o)
  /\ written (com_after o) <> written com
  /\ exists t, txn o = Some t.
Proof.
  intros Hwf Hpos Hv. cbv zeta.
  rewrite (read_validated _ _ _ _ _ Hpos Hv). cbv zeta.
  cbn [com_after txn result].
  rewrite remove_added by assumption.
  split; [reflexivity|]. split; [|split; [|split]].
  - intros s Hs. unfold registry_wf in Hwf.
    rewrite Forall_forall in Hwf. specialize (Hwf s Hs). lia.
  - apply remove_preserves_wf.
    exact (add_preserves_wf com NeoMemorySDRead_filter DiskReadCallback Hwf).
  - cbn [removeMessageCallback rawWrite addMessageCallback written snd fst].
    intros E. apply (f_equal (@List.length _)) in E.
    rewrite length_app in E. simpl in E. lia.
  - eexists. reflexivity.
Qed.

End Driver.

(** *** Memory *)

Lemma vsize_nonneg data : 0 <= vsize data.
Proof. unfold vsize. lia. Qed.

Lemma vsize_app a b : vsize (a ++ b) = vsize a + vsize b.
Proof. unfold vsize. rewrite length_app. lia. Qed.

Lemma read_range_ext (f g : Memory) n : forall start,
  (forall i, start <= i < start + Z.of_nat n -> f i = g i) ->
  read_range f start n = read_range g start n.
Proof.
  induction n as [|n IH]; intros start H; simpl; [reflexivity|].
  rewrite (H start) by lia. f_equal. apply IH. intros i Hi. apply H. lia.
Qed.

Lemma read_range_app (f : Memory) n m : forall start,
  read_range f start (n + m)
  = read_range f start n ++ read_range f (start + Z.of_nat n) m.
Proof.
  induction n as [|n IH]; intros start.
  - simpl. now rewrite Z.add_0_r.
  - cbn [Nat.add read_range app]. rewrite IH. do 3 f_equal. lia.
Qed.

Lemma memcpy_outside mem dst src i :
  i < dst \/ dst + vsize src <= i -> memcpy mem dst src i = mem i.
Proof.
  intros H. unfold memcpy.
  destruct (dst <=? i) eqn:E1; destruct (i <? dst + vsize src) eqn:E2;
    simpl; try reflexivity.
  apply Z.leb_le in E1. apply Z.ltb_lt in E2. lia.
Qed.

Lemma memcpy_inside mem dst src i :
  dst <= i < dst + vsize src ->
  memcpy mem dst src i = nth (Z.to_nat (i - dst)) src x00.
Proof.
  intros H. unfold memcpy.
  replace (dst <=? i) with true by (symmetry; apply Z.leb_le; lia).
  replace (i <? dst + vsize src) with true by (symmetry; apply Z.ltb_lt; lia).
  reflexivity.
Qed.

(** Reading back the range a [memcpy] wrote gives the source. *)
Lemma read_range_memcpy src : forall mem dst,
  read_range (memcpy mem dst src) dst (List.length src) = src.
Proof.
  induction src as [|b src IH]; intros mem dst; [reflexivity|].
  cbn [List.length read_range]. f_equal.
  - rewrite memcpy_inside by (unfold vsize; simpl List.length; lia).
    now rewrite Z.sub_diag.
  - transitivity (read_range (memcpy mem (dst + 1) src) (dst + 1)
                             (List.length src)); [|apply IH].
    apply read_range_ext. intros i Hi.
    rewrite !memcpy_inside by (unfold vsize; simpl List.length; lia).
    replace (Z.to_nat (i - dst)) with (S (Z.to_nat (i - (dst + 1)))) by lia.
    reflexivity.
Qed.

(** *** The callback *)

Lemma dispatch_sd_chunk amount t data :
  dispatch amount t (sd_chunk data) = callback amount (Some (sd_chunk data)) t.
Proof. reflexivity. Qed.

(** The callback on a payload that fits: a copy at [copied], which advances
    by the payload size, and a notification when the amount is reached. *)
Lemma callback_fits amount msg data t :
  amount < 2 ^ 32 -> 0 <= copied t ->
  dynamic_pointer_cast msg = Some data ->
  copied t + vsize data <= amount ->
  callback amount msg t
  = let t1 := {| copied := copied t + vsize data;
                 error := error t;
                 into := memcpy (into t) (copied t) data;
                 notified := notified t |} in
    if copied t + vsize data =? amount then notify_all t1 else t1.
Proof.
  intros Hamt Hc Hcast Hfit. unfold callback. rewrite Hcast.
  pose proof (vsize_nonneg data) as Hn.
  rewrite uint64_small by lia.
  replace (amount <? copied t + vsize data) with false
    by (symmetry; apply Z.ltb_ge; lia).
  rewrite (uint32_small (vsize data)) by lia.
  rewrite uint32_small by lia. reflexivity.
Qed.

(** The callback on anything else: the error flag and a notification. *)
Lemma callback_fails amount msg t :
  0 <= copied t < 2 ^ 32 -> sized msg ->
  dynamic_pointer_cast msg = None
  \/ (exists data, dynamic_pointer_cast msg = Some data
                   /\ amount < copied t + vsize data) ->
  callback amount msg t = notify_all (set_error t).
Proof.
  intros Hc Hsz H. unfold callback. unfold sized in Hsz.
  destruct (dynamic_pointer_cast msg) as [data|]; [|reflexivity].
  destruct H as [H | [d [E Hover]]]; [discriminate|].
  injection E as <-. pose proof (vsize_nonneg data) as Hn.
  unfold max_size in Hsz. rewrite uint64_small by lia.
  replace (amount <? copied t + vsize data) with true
    by (symmetry; apply Z.ltb_lt; lia).
  reflexivity.
Qed.

(** In-order chunks that fit are laid down one after the other. *)
Lemma chunks_accumulate amount chunks : forall t,
  amount < 2 ^ 32 -> 0 <= copied t ->
  copied t + vsize (List.concat chunks) <= amount ->
  let t' := deliver amount (map sd_chunk chunks) t in
  copied t' = copied t + vsize (List.concat chunks)
  /\ error t' = error t
  /\ read_range (into t') (copied t) (List.length (List.concat chunks))
     = List.concat chunks
  /\ (forall i, i < copied t \/ copied t + vsize (List.concat chunks) <= i ->
                into t' i = into t i).
Proof.
  induction chunks as [|c chunks IH]; intros t Hamt Hc Hfit; cbv zeta.
  - simpl. unfold vsize. simpl. repeat split; auto; lia.
  - cbn [map deliver fold_left List.concat] in *. rewrite vsize_app in Hfit.
    pose proof (vsize_nonneg c) as Hn.
    pose proof (vsize_nonneg (List.concat chunks)) as Hn'.
    rewrite dispatch_sd_chunk.
    rewrite (callback_fits amount (Some (sd_chunk c)) c t Hamt Hc eq_refl)
      by lia. cbv zeta.
    set (t1 := if copied t + vsize c =? amount then _ else _).
    assert (E1 : copied t1 = copied t + vsize c)
      by (subst t1; destruct (_ =? _); reflexivity).
    assert (E2 : error t1 = error t)
      by (subst t1; destruct (_ =? _); reflexivity).
    assert (E3 : into t1 = memcpy (into t) (copied t) c)
      by (subst t1; destruct (_ =? _); reflexivity).
    specialize (IH t1 Hamt). cbv zeta in IH. unfold deliver in IH.
    destruct IH as [I1 [I2 [I3 I4]]]; [lia | lia |].
    rewrite E1 in *. repeat split.
    + rewrite I1, vsize_app. lia.
    + congruence.
    + rewrite length_app, read_range_app. f_equal.
      * transitivity (read_range (memcpy (into t) (copied t) c) (copied t)
                                 (List.length c));
          [|apply read_range_memcpy].
        apply read_range_ext. intros i Hi. rewrite I4 by (unfold vsize; lia).
        now rewrite E3.
      * exact I3.
    + intros i Hi. rewrite vsize_app in Hi. rewrite I4 by lia.
      rewrite E3. apply memcpy_outside. lia.
Qed.

(** One invocation keeps [copied] a 32-bit value within the amount, and a
    copy, when one is made, is the [memcpy] of a payload that fits. *)
Lemma callback_keeps_bound amount msg t :
  0 <= copied t < 2 ^ 32 -> copied t <= amount -> sized msg ->
  let t' := callback amount msg t in
  0 <= copied t' < 2 ^ 32
  /\ copied t' <= amount
  /\ (into t' = into t
      \/ exists data,
          dynamic_pointer_cast msg = Some data
          /\ copied t + vsize data <= amount
          /\ into t' = memcpy (into t) (copied t) data).
Proof.
  intros Hc Hle Hsz. cbv zeta. unfold callback. unfold sized in Hsz.
  destruct (dynamic_pointer_cast msg) as [data|];
    [|simpl; repeat split; auto; lia].
  pose proof (vsize_nonneg data) as Hn. unfold max_size in Hsz.
  rewrite uint64_small by lia.
  destruct (amount <? copied t + vsize data) eqn:E.
  - simpl. repeat split; auto; lia.
  - apply Z.ltb_ge in E.
    pose proof (uint32_range (copied t + uint32 (vsize data))) as Hr.
    pose proof (uint32_le (vsize data) Hn) as H1.
    pose proof (uint32_range (vsize data)) as H2.
    assert (H3 : uint32 (copied t + uint32 (vsize data))
                 <= copied t + uint32 (vsize data))
      by (apply uint32_le; lia).
    cbv zeta. cbn [copied].
    destruct (uint32 (copied t + uint32 (vsize data)) =? amount);
      cbn [copied into notify_all]; (split; [lia|]); (split; [lia|]);
      right; exists data; auto.
Qed.

(** C4. A response whose payload fits the remaining amount is copied into
    the destination at the accumulated count, which advances by the payload
    size; nothing else in the destination changes and the error flag is left
    alone.  The waiter is notified exactly when the count has reached the
    amount, and, no error having been flagged, that is exactly when the
    transaction is [Complete].  Chunks delivered in order to a new
    transaction leave their concatenation at the start of the destination. *)
Theorem fitting_chunk_is_copied amount msg data t :
  amount < 2 ^ 32 -> 0 <= copied t ->
  dynamic_pointer_cast msg = Some data ->
  copied t + vsize data <= amount ->
  let t' := callback amount msg t in
  copied t' = copied t + vsize data
  /\ read_range (into t') (copied t) (List.length data) = data
  /\ (forall i, i < copied t \/ copied t + vsize data <= i ->
                into t' i = into t i)
  /\ error t' = error t
  /\ (notified t' = S (notified t) <-> copied t' = amount)
  /\ (notified t' = notified t <-> copied t' <> amount)
  /\ (error t = false ->
      (terminal_state amount t' = Complete <-> copied t' = amount))
  /\ forall chunks dest,
      vsize (List.concat chunks) <= amount ->
      let tf := deliver amount (map sd_chunk chunks) (fresh dest) in
      read_range (into tf) 0 (List.length (List.concat chunks))
      = List.concat chunks
      /\ copied tf = vsize (List.concat chunks)
      /\ (terminal_state amount tf = Complete
          <-> vsize (List.concat chunks) = amount).
Proof.
  intros Hamt Hc Hcast Hfit. cbv zeta.
  rewrite (callback_fits amount msg data t Hamt Hc Hcast Hfit). cbv zeta.
  split; [destruct (_ =? _); reflexivity|].
  split; [destruct (_ =? _); apply read_range_memcpy|].
  split; [intros i Hi; destruct (_ =? _); now apply memcpy_outside|].
  split; [destruct (_ =? _); reflexivity|].
  split; [|split; [|split]].
  - destruct (Z.eqb_spec (copied t + vsize data) amount) as [E|E];
      cbn [notified copied notify_all]; split; intros H; try lia.
  - destruct (Z.eqb_spec (copied t + vsize data) amount) as [E|E];
      cbn [notified copied notify_all]; split; intros H; try lia.
  - intros Herr. unfold terminal_state.
    destruct (Z.eqb_spec (copied t + vsize data) amount) as [E|E];
      cbn [error copied notify_all]; rewrite Herr.
    + rewrite E, Z.eqb_refl. split; auto.
    + destruct (Z.eqb_spec (copied t + vsize data) amount) as [E'|_];
        [contradiction|]. split; [discriminate | contradiction].
  - intros chunks dest Hsum.
    destruct (chunks_accumulate amount chunks (fresh dest) Hamt)
      as [I1 [I2 [I3 _]]]; [simpl; lia | simpl; lia |].
    cbv zeta. simpl copied in *. split; [exact I3|].
    split; [lia|]. unfold terminal_state. rewrite I2, I1. simpl error.
    simpl. destruct (Z.eqb_spec (vsize (List.concat chunks)) amount);
      split; congruence.
Qed.

(** C5. A response that is not a [NeoReadMemorySDMessage], or whose payload
    would carry the accumulated count past the requested amount, makes the
    callback flag the error and notify the waiter, whose predicate now
    holds; the destination and the accumulated count are left as they
    were. *)
Theorem failing_response_marks_error amount msg t :
  0 <= copied t < 2 ^ 32 -> sized msg ->
  dynamic_pointer_cast msg = None
  \/ (exists data, dynamic_pointer_cast msg = Some data
                   /\ amount < copied t + vsize data) ->
  let t' := callback amount msg t in
  error t' = true
  /\ terminal_state amount t' = Errored
  /\ wait_pred amount t' = true
  /\ notified t' = S (notified t)
  /\ into t' = into t
  /\ copied t' = copied t
  /\ (forall m, msg = Some m ->
                filter_match NeoMemorySDRead_filter m = true ->
                dispatch amount t m = t').
Proof.
  intros Hc Hsz H. cbv zeta.
  pose proof (callback_fails amount msg t Hc Hsz H) as E. rewrite E.
  repeat split.
  intros m -> Hm. unfold dispatch. rewrite Hm. exact E.
Qed.

(** C9. Whatever sequence of messages the callback has been invoked on
    since the transaction began, the accumulated count lies between 0 and
    the requested amount and the memory outside the first [amount] bytes of
    the destination is as it was; and one more invocation either leaves the
    destination alone or copies a payload to the indices from [copied] up to
    [copied] plus its size, which does not exceed the amount. *)
Theorem copied_never_exceeds_amount amount dest msgs :
  0 <= amount -> Forall sized msgs ->
  let t := fold_left (fun t m => callback amount m t) msgs (fresh dest) in
  0 <= copied t <= amount
  /\ (forall i, i < 0 \/ amount <= i -> into t i = dest i)
  /\ forall msg, sized msg ->
      let t' := callback amount msg t in
      0 <= copied t' <= amount
      /\ (into t' = into t
          \/ exists data,
              dynamic_pointer_cast msg = Some data
              /\ copied t + vsize data <= amount
              /\ forall i,
                  ~ (copied t <= i < copied t + vsize data) ->
                  into t' i = into t i).
Proof.
  intros Hamt Hsz. cbv zeta.
  assert (Inv : forall t0,
             0 <= copied t0 < 2 ^ 32 -> copied t0 <= amount ->
             let t := fold_left (fun t m => callback amount m t) msgs t0 in
             (0 <= copied t < 2 ^ 32 /\ copied t <= amount)
             /\ forall i, i < 0 \/ amount <= i -> into t i = into t0 i).
  { induction Hsz as [|m ms Hm Hms IH]; intros t0 Hr Hle; cbv zeta.
    - simpl. auto.
    - cbn [fold_left].
      destruct (callback_keeps_bound amount m t0 Hr Hle Hm) as [B1 [B2 B3]].
      destruct (IH _ B1 B2) as [I1 I2]. split; [exact I1|].
      intros i Hi. rewrite I2 by exact Hi.
      destruct B3 as [-> | [data [_ [Hfit ->]]]]; [reflexivity|].
      apply memcpy_outside. pose proof (vsize_nonneg data). lia. }
  destruct (Inv (fresh dest)) as [[Hr Hle] Hout]; [simpl; lia | simpl; lia |].
  split; [lia|]. split; [exact Hout|].
  intros msg Hmsg.
  destruct (callback_keeps_bound amount msg _ Hr Hle Hmsg) as [B1 [B2 B3]].
  split; [lia|].
  destruct B3 as [E | [data [Hcast [Hfit E]]]]; [left; exact E|].
  right. exists data. split; [exact Hcast|]. split; [exact Hfit|].
  intros i Hi. rewrite E. apply memcpy_outside. lia.
Qed.

(** C1. With a minimum granularity of 512, a maximum block size of 8192
    and sectors of 512 bytes, a request for 512 bytes at offset 0 that is
    answered by one chunk of 513 bytes ends [Errored] with nothing copied,
    and the call returns the requested amount all the same. *)
Theorem errored_read_returns_amount : forall opcode com dest,
  let o := readLogicalDiskAligned (512, 8192) 512 opcode com 0 dest 512
             [[sd_chunk (repeat x00 513)]] in
  result o = Some 512
  /\ exists t, txn o = Some t
               /\ terminal_state 512 t = Errored
               /\ copied t = 0
               /\ into t = dest.
Proof.
  intros opcode com dest. cbv zeta. split; [reflexivity|].
  eexists. split; [reflexivity|]. repeat split.
Qed.

(** *** The theorems on sample requests *)

Import Samples.

Ltac by_computation :=
  vm_compute; first [ reflexivity | discriminate | exact I ].

Lemma sector_512_pos : 0 < sector_512.
Proof. reflexivity. Defined.

Lemma busy_wf : registry_wf busy.
Proof. repeat constructor. Defined.

(** A request at the misaligned offset 100 is turned down. *)
Lemma rejected_request_witness :
  100 mod fst bounds <> 0
  /\ result (readLogicalDiskAligned bounds sector_512 opcode busy 100 zeroed
                                    512 [])
     = None
  /\ written (com_after (readLogicalDiskAligned bounds sector_512 opcode busy
                                                100 zeroed 512 []))
     = written busy.
Proof.
  assert (H : 100 mod fst bounds <> 0) by by_computation.
  pose proof (rejected_request_does_no_io bounds sector_512 opcode busy 100
                zeroed 512 [] (or_intror (or_intror H))) as W.
  cbv zeta in W. split; [exact H|]. split; [apply W | apply W].
Defined.

(** 1024 bytes at offset 0: the frame [opcode, 0, 0, 0, 0, 0x00, 0x04]. *)
Lemma one_command_frame_witness :
  validated bounds sector_512 0 1024
  /\ written (com_after (readLogicalDiskAligned bounds sector_512 opcode busy
                                                0 zeroed 1024
                                                [[sd_chunk (ramp 512)];
                                                 [sd_chunk (ramp 512)]]))
     = [[240; 0; 0; 0; 0; 0; 4]].
Proof.
  assert (H : validated bounds sector_512 0 1024)
    by (repeat split; by_computation).
  assert (H0 : 0 <= 0) by by_computation.
  assert (H1 : 0 <= 1024) by by_computation.
  pose proof (one_command_frame bounds sector_512 opcode sector_512_pos busy
                0 zeroed 1024
                [[sd_chunk (ramp 512)]; [sd_chunk (ramp 512)]] H0 H1 H) as W.
  cbv zeta in W. split; [exact H|].
  exact (proj2 (proj2 (proj2 (proj2 W))) eq_refl eq_refl).
Defined.

(** At offset 2^41 the sector is 2^32, one too many for the frame. *)
Lemma sector_translation_witness :
  (0 <= 2 ^ 41 < 2 ^ 64 /\ preconditions bounds (2 ^ 41) 512)
  /\ result (readLogicalDiskAligned bounds sector_512 opcode busy (2 ^ 41)
                                    zeroed 512 [])
     = None
  /\ com_after (readLogicalDiskAligned bounds sector_512 opcode busy (2 ^ 41)
                                       zeroed 512 [])
     = busy.
Proof.
  assert (H0 : 0 <= 2 ^ 41 < 2 ^ 64) by (split; by_computation).
  assert (H : preconditions bounds (2 ^ 41) 512)
    by (repeat split; by_computation).
  pose proof (sector_translation bounds sector_512 opcode sector_512_pos busy
                (2 ^ 41) zeroed 512 [] H0 H) as W.
  cbv zeta in W. destruct W as [_ [W _]].
  assert (Hbig : 2 ^ 32 <= 2 ^ 41 / sector_512) by by_computation.
  split; [split; assumption|]. split; [apply (W Hbig) | apply (W Hbig)].
Defined.

(** Two chunks of 512 bytes complete a request for 1024: the amount is
    returned and the destination holds the chunks one after the other. *)
Example complete_read_returns_amount :
  let o := readLogicalDiskAligned bounds sector_512 opcode busy 0 zeroed 1024
             [[sd_chunk (ramp 512)]; [sd_chunk (ramp 512)]] in
  result o = Some 1024
  /\ option_map (terminal_state 1024) (txn o) = Some Complete
  /\ option_map (fun t => read_range (into t) 0 1024) (txn o)
     = Some (ramp 512 ++ ramp 512).
Proof. cbv zeta. repeat split; vm_compute; reflexivity. Qed.

(** When only the first of the two chunks arrives before the timeout, the
    call returns nothing, not the 512 bytes copied so far. *)
Example timed_out_read_returns_nothing :
  let o := readLogicalDiskAligned bounds sector_512 opcode busy 0 zeroed 1024
             [[]; [sd_chunk (ramp 512)]] in
  result o = None
  /\ option_map (terminal_state 1024) (txn o) = Some TimedOut
  /\ option_map copied (txn o) = Some 512
  /\ messageCallbacks (com_after o) = messageCallbacks busy.
Proof. cbv zeta. repeat split. Qed.

(** A request that times out leaves the registry as it found it. *)
Lemma subscription_removed_witness :
  (registry_wf busy /\ validated bounds sector_512 1024 512)
  /\ messageCallbacks
       (com_after (readLogicalDiskAligned bounds sector_512 opcode busy 1024
                                          zeroed 512 []))
     = messageCallbacks busy.
Proof.
  assert (H : validated bounds sector_512 1024 512)
    by (repeat split; by_computation).
  assert (H0 : 0 <= 1024) by by_computation.
  pose proof (subscription_removed_on_return bounds sector_512 opcode
                sector_512_pos busy 1024 zeroed 512 [] busy_wf H0 H) as W.
  cbv zeta in W. split; [split; [exact busy_wf | exact H]|]. apply W.
Defined.

(** The first of two chunks of 512 bytes, and the two in a row. *)
Lemma fitting_chunk_witness :
  (1024 < 2 ^ 32 /\ 0 + vsize (ramp 512) <= 1024)
  /\ copied (callback 1024 (Some (sd_chunk (ramp 512))) (fresh zeroed))
     = 0 + vsize (ramp 512)
  /\ read_range
       (into (deliver 1024 (map sd_chunk [ramp 512; ramp 512]) (fresh zeroed)))
       0 (List.length (List.concat [ramp 512; ramp 512]))
     = List.concat [ramp 512; ramp 512].
Proof.
  assert (H0 : 1024 < 2 ^ 32) by by_computation.
  assert (H1 : 0 <= copied (fresh zeroed)) by by_computation.
  assert (H2 : copied (fresh zeroed) + vsize (ramp 512) <= 1024)
    by by_computation.
  assert (H3 : vsize (List.concat [ramp 512; ramp 512]) <= 1024)
    by by_computation.
  pose proof (fitting_chunk_is_copied 1024 (Some (sd_chunk (ramp 512)))
                (ramp 512) (fresh zeroed) H0 H1 eq_refl H2) as W.
  cbv zeta in W. split; [split; assumption|]. split; [apply W|].
  destruct W as [_ [_ [_ [_ [_ [_ [_ W]]]]]]].
  apply (W [ramp 512; ramp 512] zeroed H3).
Defined.

(** A chunk of 513 bytes against a request for 512. *)
Lemma failing_response_witness :
  (sized (Some (sd_chunk (ramp 513))) /\ 512 < 0 + vsize (ramp 513))
  /\ error (callback 512 (Some (sd_chunk (ramp 513))) (fresh zeroed)) = true
  /\ into (callback 512 (Some (sd_chunk (ramp 513))) (fresh zeroed)) = zeroed.
Proof.
  assert (H0 : 0 <= copied (fresh zeroed) < 2 ^ 32) by (split; by_computation).
  assert (H1 : sized (Some (sd_chunk (ramp 513)))) by by_computation.
  assert (H2 : 512 < copied (fresh zeroed) + vsize (ramp 513))
    by by_computation.
  pose proof (failing_response_marks_error 512 (Some (sd_chunk (ramp 513)))
                (fresh zeroed) H0 H1
                (or_intror (ex_intro _ (ramp 513) (conj eq_refl H2)))) as W.
  cbv zeta in W. split; [split; assumption|]. split; apply W.
Defined.

(** A good chunk, a null message and a chunk that is too long. *)
Lemma copied_bound_witness :
  Forall sized [Some (sd_chunk (ramp 512)); None; Some (sd_chunk (ramp 600))]
  /\ 0 <= copied (fold_left (fun t m => callback 1024 m t)
                            [Some (sd_chunk (ramp 512)); None;
                             Some (sd_chunk (ramp 600))]
                            (fresh zeroed))
       <= 1024.
Proof.
  assert (H0 : 0 <= 1024) by by_computation.
  assert (H : Forall sized [Some (sd_chunk (ramp 512)); None;
                            Some (sd_chunk (ramp 600))])
    by (repeat constructor; by_computation).
  pose proof (copied_never_exceeds_amount 1024 zeroed _ H0 H) as W.
  cbv zeta in W. split; [exact H | apply W].
Defined.

End PlasionDiskFacts.

(** ** The hardware CAN packet *)

Module CANPacketFacts.
Import CANPacket.

(** Every block of 16-bit members fills its storage unit, and the timestamp
    fills its 64 bits. *)
Lemma blocks_are_full :
  block_width header = icscm_bitfield_bits
  /\ block_width eid = icscm_bitfield_bits
  /\ block_width dlc = icscm_bitfield_bits
  /\ block_width timestamp = 64%nat.
Proof. repeat split. Qed.

(** C8, as stated: five one-bit members between [DLC] and [EID2] is not the
    shape of the dlc block; with five the block would have 15 bits. *)
Lemma dlc_block_has_not_five_flags : ~ dlc_block_shape 5.
Proof.
  unfold dlc_block_shape. intros [_ [_ [_ [Hlen _]]]].
  simpl in Hlen. discriminate Hlen.
Qed.

(** C8, amended. The dlc block is the 4-bit [DLC], then the six one-bit
    members [RB0], [IVRIF], [HVEnable], [ExtendedNetworkIndexBit], [RB1] and
    [RTR], then the 6-bit [EID2]; allocated in declaration order they take
    bits 0 to 3, 4 to 9 and 10 to 15 of the 16-bit block, which they fill. *)
Theorem dlc_block_has_six_flags :
  dlc_block_shape 6
  /\ map field_name (inner dlc)
     = [ "RB0"; "IVRIF"; "HVEnable"; "ExtendedNetworkIndexBit"; "RB1";
         "RTR" ]%string
  /\ place 0 dlc
     = [ ("DLC", 0, 4); ("RB0", 4, 1); ("IVRIF", 5, 1); ("HVEnable", 6, 1);
         ("ExtendedNetworkIndexBit", 7, 1); ("RB1", 8, 1); ("RTR", 9, 1);
         ("EID2", 10, 6) ]%string%nat
  /\ block_width dlc = icscm_bitfield_bits.
Proof.
  unfold dlc_block_shape. repeat split.
  simpl. repeat constructor.
Qed.

End CANPacketFacts.

(** ** CDC-ACM device handles *)

Module CDCACMFacts.
Import Width WidthFacts CDCACM.

(** *** Digits *)

Lemma digit_cases d :
  0 <= d < 10 ->
  d = 0 \/ d = 1 \/ d = 2 \/ d = 3 \/ d = 4 \/ d = 5 \/ d = 6 \/ d = 7
  \/ d = 8 \/ d = 9.
Proof. lia. Qed.

Ltac each_digit H :=
  apply digit_cases in H;
  repeat (destruct H as [H|H]; [subst|]); subst.

Lemma digit_char_value d :
  0 <= d < 10 ->
  isdigit (digit_char d) = true
  /\ Z.of_nat (nat_of_ascii (digit_char d)) - 48 = d.
Proof. intros H. each_digit H; split; reflexivity. Qed.

Lemma first_digit_at_digit d s :
  0 <= d < 10 -> first_digit (String (digit_char d) s) = 0%nat.
Proof.
  intros H. cbn [first_digit].
  now rewrite (proj1 (digit_char_value d H)).
Qed.

(** On a string that begins with a digit, [stoul] has no white space and no
    sign to skip. *)
Lemma stoul_at_digit d s :
  0 <= d < 10 ->
  stoul (String (digit_char d) s)
  = let v := digits_value (String (digit_char d) s) 0 in
    if ULONG_MAX <? v then None else Some v.
Proof. intros H. each_digit H; reflexivity. Qed.

(** *** Printing and reading back *)

(** The digits printed for [n] read back as [n], appended to what was read
    before them. *)
Lemma digits_value_decimal fuel : forall n rest a,
  0 <= n < 10 ^ Z.of_nat fuel ->
  exists p, digits_value (decimal fuel n rest) a
            = digits_value rest (a * p + n).
Proof.
  induction fuel as [|fuel IH]; intros n rest a Hn.
  - exists 1. simpl in *. f_equal. lia.
  - cbn [decimal].
    assert (Hd : 0 <= n mod 10 < 10) by (apply Z.mod_pos_bound; lia).
    destruct (digit_char_value _ Hd) as [D1 D2].
    destruct (Z.ltb_spec n 10) as [Hlt|Hge].
    + exists 10. cbn [digits_value]. rewrite D1, D2.
      rewrite Z.mod_small by lia. reflexivity.
    + assert (Hq : 0 <= n / 10 < 10 ^ Z.of_nat fuel).
      { split; [apply Z.div_pos; lia|].
        apply Z.div_lt_upper_bound; [lia|].
        replace (Z.of_nat (S fuel)) with (1 + Z.of_nat fuel) in Hn by lia.
        rewrite Z.pow_add_r in Hn by lia. lia. }
      destruct (IH (n / 10) (String (digit_char (n mod 10)) rest) a Hq)
        as [p Hp].
      exists (p * 10). rewrite Hp. cbn [digits_value]. rewrite D1, D2.
      f_equal. pose proof (Z.div_mod n 10). lia.
Qed.

(** What is printed for a number begins with a digit. *)
Lemma decimal_head fuel : forall n rest,
  0 <= n ->
  exists d s, 0 <= d < 10
              /\ decimal (S fuel) n rest = String (digit_char d) s.
Proof.
  induction fuel as [|fuel IH]; intros n rest Hn.
  - exists (n mod 10), rest. split; [apply Z.mod_pos_bound; lia|].
    cbn [decimal]. destruct (n <? 10); reflexivity.
  - remember (S fuel) as k. cbn [decimal]. subst k.
    destruct (n <? 10).
    + exists (n mod 10), rest. split; [apply Z.mod_pos_bound; lia|].
      reflexivity.
    + apply IH. apply Z.div_pos; lia.
Qed.

Lemma stoul_print n :
  0 <= n < 2 ^ 31 -> stoul (print_int n) = Some n.
Proof.
  intros Hn. unfold print_int.
  replace (n <? 0) with false by (symmetry; apply Z.ltb_ge; lia).
  destruct (decimal_head 9 n EmptyString) as [d [s [Hd E]]]; [lia|].
  rewrite E, stoul_at_digit by exact Hd. cbv zeta. rewrite <- E.
  destruct (digits_value_decimal 10 n EmptyString 0) as [p Hp].
  { change (10 ^ Z.of_nat 10) with 10000000000. lia. }
  rewrite Hp. cbn [digits_value]. rewrite Z.mul_0_l, Z.add_0_l.
  replace (ULONG_MAX <? n) with false; [reflexivity|].
  symmetry. apply Z.ltb_ge. unfold ULONG_MAX. lia.
Qed.

Lemma first_digit_print n :
  0 <= n -> first_digit (print_int n) = 0%nat.
Proof.
  intros Hn. unfold print_int.
  replace (n <? 0) with false by (symmetry; apply Z.ltb_ge; lia).
  destruct (decimal_head 9 n EmptyString) as [d [s [Hd E]]]; [lia|].
  rewrite E. now apply first_digit_at_digit.
Qed.

(** *** From a tty to its handle and back *)

Lemma tty_handle_name n :
  0 <= n <= 2 ^ 31 - 11 -> tty_handle (tty_name n) = Some (n + HANDLE_OFFSET).
Proof.
  intros Hn. unfold tty_handle, tty_name.
  change (first_digit ("ttyACM" ++ print_int n))
    with (6 + first_digit (print_int n))%nat.
  rewrite first_digit_print by lia.
  change (substr (6 + 0) ("ttyACM" ++ print_int n)) with (print_int n).
  rewrite stoul_print by lia. unfold neodevice_handle, HANDLE_OFFSET.
  rewrite (int32_small n) by lia. rewrite int32_small by lia. reflexivity.
Qed.

Lemma HandleToTTY_name n :
  0 <= n <= 2 ^ 31 - 11 ->
  HandleToTTY (n + HANDLE_OFFSET) = ("/dev/" ++ tty_name n)%string.
Proof.
  intros Hn. unfold HandleToTTY, tty_name.
  replace (n + HANDLE_OFFSET - HANDLE_OFFSET) with n by lia.
  rewrite int32_small by lia. reflexivity.
Qed.

(** *** The loop *)

Section Loop.

Variable first_line : string -> string.
Variable serial_size : nat.

Local Abbreviation step := (discover first_line serial_size).

Lemma discover_keeps found entry dev :
  In dev found -> In dev (step found entry).
Proof.
  intros H. unfold discover. destruct entry as [usb [tty pid]].
  destruct (USBSerialGetter first_line usb); [|exact H].
  destruct (tty_handle tty); [|exact H].
  apply in_or_app. now left.
Qed.

Lemma Find_devices_keeps foundttys : forall found dev,
  In dev found -> In dev (Find_devices first_line serial_size foundttys found).
Proof.
  induction foundttys as [|e l IH]; intros found dev H; simpl; [exact H|].
  apply IH. now apply discover_keeps.
Qed.

(** A device pushed by the iteration on one entry of the map is in the
    result whatever was found before. *)
Lemma Find_devices_pushes foundttys entry dev :
  In entry foundttys ->
  (forall found, step found entry = found ++ [dev]) ->
  forall found,
    In dev (Find_devices first_line serial_size foundttys found).
Proof.
  intros Hin Hpush found. apply in_split in Hin. destruct Hin as [l1 [l2 ->]].
  unfold Find_devices. rewrite fold_left_app. cbn [fold_left].
  apply Find_devices_keeps. rewrite Hpush. apply in_or_app. right. now left.
Qed.

End Loop.

(** The round trip of C10 fails for the tty [ttyACM4294967286]: it does
    not make the round trip.  Its number wraps to -10 in the 32-bit handle, so the device gets
    the undefined handle 0. *)
Lemma tty_number_wraps_to_handle_zero : ~ tty_round_trip 4294967286.
Proof.
  intros H.
  destruct (H (fun _ => EmptyString) 7%nat [] "7-2:1.0"%string 0
              EmptyString eq_refl) as [dev [E [_ [_ [Hnz _]]]]].
  vm_compute in E. injection E as <-. apply Hnz. reflexivity.
Qed.

(** Within the range of the handle type the round trip of C10 holds.
    For every [n] from 0 to 2^31 - 11, so that [n] plus the
    offset 10 is a 32-bit signed value, an entry for the tty [ttyACM<n>]
    whose serial number could be read yields a device whose handle is
    [n + 10], hence not 0, and [HandleToTTY] of that handle is
    [/dev/ttyACM<n>]. *)
Theorem tty_handle_round_trip n :
  0 <= n <= 2 ^ 31 - 11 -> tty_round_trip n.
Proof.
  intros Hn first_line serial_size found usb pid s Hs.
  set (dev := {| handle := n + HANDLE_OFFSET; productId := pid;
                 serial := substring 0 (serial_size - 1) s |}).
  assert (Hpush : forall found',
             discover first_line serial_size found' (usb, (tty_name n, pid))
             = found' ++ [dev]).
  { intros found'. unfold discover.
    rewrite Hs, (tty_handle_name n Hn). reflexivity. }
  exists dev. split; [apply Hpush|]. split.
  - intros foundttys Hin.
    now apply (Find_devices_pushes _ _ _ (usb, (tty_name n, pid))).
  - split; [reflexivity|]. split.
    + simpl. unfold HANDLE_OFFSET. lia.
    + simpl handle. now apply HandleToTTY_name.
Qed.

(** The tty [ttyACM255] and the handle 265. *)
Lemma tty_handle_round_trip_witness :
  0 <= 255 <= 2 ^ 31 - 11 /\ tty_round_trip 255.
Proof.
  assert (H : 0 <= 255 <= 2 ^ 31 - 11)
    by (split; vm_compute; discriminate).
  split; [exact H | exact (tty_handle_round_trip 255 H)].
Defined.

End CDCACMFacts.

(** ** More on the aligned disk read *)

Module PlasionDiskMore.
Import Width WidthFacts PlasionDisk PlasionDiskFacts.

(** *** The callback, one invocation and many *)

(** X5. An invocation of the callback notifies the waiter at most once;
    it notifies only when it leaves the predicate of the wait true, and it
    always notifies when it is the one that makes the predicate true. *)
Theorem callback_notifies_when_predicate_holds amount msg t :
  let t' := callback amount msg t in
  (notified t' = notified t \/ notified t' = S (notified t))
  /\ (notified t' = S (notified t) -> wait_pred amount t' = true)
  /\ (wait_pred amount t = false -> wait_pred amount t' = true ->
      notified t' = S (notified t)).
Proof.
  cbv zeta. unfold callback, wait_pred.
  destruct (dynamic_pointer_cast msg) as [data|]; [|simpl; auto].
  destruct (amount <? uint64 (copied t + vsize data)); [simpl; auto|].
  cbv zeta. cbn [copied].
  destruct (uint32 (copied t + uint32 (vsize data)) =? amount) eqn:E;
    cbn [notified error copied notify_all]; rewrite ?E.
  - rewrite orb_true_r. auto.
  - rewrite orb_false_r. repeat split; auto.
    + intros H. exfalso. apply (n_Sn _ H).
    + intros H1 H2. apply orb_false_elim in H1. destruct H1 as [H1 _].
      congruence.
Qed.

(** One invocation, when the amount fits the 32-bit counter, flags no
    error it then clears, never moves [copied] back, and leaves the bytes
    below [copied] as they were. *)
Lemma callback_monotone amount msg t :
  amount < 2 ^ 32 -> 0 <= copied t -> copied t <= amount -> sized msg ->
  let t' := callback amount msg t in
  (error t = true -> error t' = true)
  /\ copied t <= copied t' <= amount
  /\ (notified t <= notified t')%nat
  /\ (forall i, i < copied t -> into t' i = into t i).
Proof.
  intros Hamt Hc Hle Hsz. cbv zeta.
  destruct (dynamic_pointer_cast msg) as [data|] eqn:Hcast.
  - pose proof (vsize_nonneg data) as Hn.
    destruct (Z.le_gt_cases (copied t + vsize data) amount) as [Hfit|Hover].
    + rewrite (callback_fits amount msg data t Hamt Hc Hcast Hfit).
      cbv zeta.
      destruct (copied t + vsize data =? amount);
        cbn [error copied notified into notify_all];
        (split; [auto|]); (split; [lia|]); (split; [lia|]);
        intros i Hi; apply memcpy_outside; lia.
    + rewrite callback_fails; [| lia | exact Hsz |].
      * simpl. repeat split; auto; lia.
      * right. exists data. split; [exact Hcast | lia].
  - rewrite callback_fails; [| lia | exact Hsz | left; exact Hcast].
    simpl. repeat split; auto; lia.
Qed.

(** X7. Over any further sequence of responses, a transaction whose amount
    fits the 32-bit counter keeps an error once flagged, never moves
    [copied] back, never takes a notification back, and never overwrites a
    byte it has already delivered below [copied]. *)
Theorem transaction_only_advances amount msgs : forall t,
  amount < 2 ^ 32 -> 0 <= copied t -> copied t <= amount ->
  Forall sized msgs ->
  let t' := fold_left (fun t m => callback amount m t) msgs t in
  (error t = true -> error t' = true)
  /\ copied t <= copied t' <= amount
  /\ (notified t <= notified t')%nat
  /\ (forall i, i < copied t -> into t' i = into t i).
Proof.
  induction msgs as [|m ms IH]; intros t Hamt Hc Hle Hsz; cbv zeta.
  - simpl. repeat split; auto; lia.
  - cbn [fold_left]. inversion Hsz as [|? ? Hm Hms]; subst.
    destruct (callback_monotone amount m t Hamt Hc Hle Hm)
      as [M1 [M2 [M3 M4]]].
    destruct (IH (callback amount m t) Hamt) as [I1 [I2 [I3 I4]]];
      [lia | lia | exact Hms |].
    repeat split; auto; try lia.
    intros i Hi. rewrite I4 by lia. apply M4. exact Hi.
Qed.

(** *** Schedules of deliveries *)

(** Messages of other networks do not reach the callback. *)
Lemma deliver_unmatched amount ms : forall t,
  Forall (fun m => filter_match NeoMemorySDRead_filter m = false) ms ->
  deliver amount ms t = t.
Proof.
  induction ms as [|m ms IH]; intros t H; [reflexivity|].
  inversion H as [|? ? Hm Hms]; subst.
  cbn [deliver fold_left]. unfold dispatch at 2. rewrite Hm.
  apply IH. exact Hms.
Qed.

Lemma wait_for_unmatched amount sleeps : forall t,
  Forall (Forall (fun m => filter_match NeoMemorySDRead_filter m = false))
         sleeps ->
  wait_for amount sleeps t = (t, wait_pred amount t).
Proof.
  induction sleeps as [|ms rest IH]; intros t H; [reflexivity|].
  inversion H as [|? ? Hm Hms]; subst. cbn [wait_for].
  destruct (wait_pred amount t) eqn:E; [reflexivity|].
  rewrite deliver_unmatched by exact Hm. rewrite IH by exact Hms.
  now rewrite E.
Qed.

Lemma concat_nil_of_vsize (l : list (list byte)) :
  vsize (List.concat l) = 0 -> List.concat l = [].
Proof.
  unfold vsize. destruct (List.concat l); simpl; [reflexivity | lia].
Qed.

(** In-order chunks that add up to what is still missing, however they are
    grouped into the sleeps of the waiter, wake it with the amount reached
    and the chunks laid down one after the other. *)
Lemma wait_for_chunks amount groups : forall t,
  amount < 2 ^ 32 -> error t = false -> 0 <= copied t ->
  copied t + vsize (List.concat (List.concat groups)) = amount ->
  let r := wait_for amount (map (map sd_chunk) groups) t in
  snd r = true
  /\ error (fst r) = false
  /\ copied (fst r) = amount
  /\ read_range (into (fst r)) (copied t)
                (List.length (List.concat (List.concat groups)))
     = List.concat (List.concat groups)
  /\ (forall i, i < copied t \/ amount <= i -> into (fst r) i = into t i).
Proof.
  induction groups as [|g rest IH]; intros t Hamt Herr Hc Hsum; cbv zeta.
  - simpl in *. unfold vsize in Hsum. simpl in Hsum.
    unfold wait_pred. rewrite Herr.
    replace (copied t =? amount) with true by (symmetry; apply Z.eqb_eq; lia).
    repeat split; auto. lia.
  - cbn [map wait_for]. cbn [List.concat] in *.
    rewrite concat_app, vsize_app in Hsum.
    pose proof (vsize_nonneg (List.concat g)) as Hg.
    pose proof (vsize_nonneg (List.concat (List.concat rest))) as Hr.
    destruct (wait_pred amount t) eqn:E.
    + unfold wait_pred in E. rewrite Herr in E. simpl in E.
      apply Z.eqb_eq in E.
      assert (Z1 : vsize (List.concat g) = 0) by lia.
      assert (Z2 : vsize (List.concat (List.concat rest)) = 0) by lia.
      rewrite concat_app, (concat_nil_of_vsize _ Z1),
        (concat_nil_of_vsize _ Z2).
      simpl. repeat split; auto.
    + destruct (chunks_accumulate amount g t Hamt Hc) as [A1 [A2 [A3 A4]]];
        [lia|].
      set (t1 := deliver amount (map sd_chunk g) t) in *.
      destruct (IH t1 Hamt) as [I1 [I2 [I3 [I4 I5]]]];
        [congruence | lia | lia |].
      split; [exact I1|]. split; [exact I2|]. split; [exact I3|].
      split.
      * rewrite concat_app, length_app, read_range_app. f_equal.
        -- etransitivity; [|exact A3]. apply read_range_ext. intros i Hi.
           apply I5. left. unfold vsize in A1. lia.
        -- etransitivity; [|exact I4]. f_equal. unfold vsize in A1. lia.
      * intros i Hi. rewrite I5 by lia. apply A4. lia.
Qed.

Section Driver.

Variable getBlockSizeBounds : Z * Z.
Variable SectorSize : Z.
Variable HostPC_from_SDCC1 : Z.

Hypothesis SectorSize_pos : 0 < SectorSize.

(** X1. Whatever the request and whatever arrives, the call returns the
    requested amount exactly when it ran a transaction whose wait predicate
    ([error || copied == amount]) held on wake-up, and nothing otherwise:
    when the request was turned down or the predicate did not hold. *)
Theorem read_returns_amount_iff_woke com pos dest amount sleeps :
  let o :=
    readLogicalDiskAligned getBlockSizeBounds SectorSize HostPC_from_SDCC1
                           com pos dest amount sleeps in
  (result o = Some amount
   <-> exists t, txn o = Some t /\ wait_pred amount t = true)
  /\ (result o = None
      <-> txn o = None
          \/ exists t, txn o = Some t /\ wait_pred amount t = false).
Proof.
  cbv zeta. unfold readLogicalDiskAligned.
  assert (F : forall c,
             (result (failure c) = Some amount
              <-> exists t, txn (failure c) = Some t
                            /\ wait_pred amount t = true)
             /\ (result (failure c) = None
                 <-> txn (failure c) = None
                     \/ exists t, txn (failure c) = Some t
                                  /\ wait_pred amount t = false)).
  { intros c. simpl. split; split; auto.
    - discriminate.
    - intros [t [H _]]. discriminate. }
  repeat match goal with
         | |- context [if ?b then failure _ else _] =>
             destruct b; [apply F|]
         end.
  cbv zeta. unfold addMessageCallback.
  pose proof (wait_for_pred amount sleeps (fresh dest)) as W.
  destruct (wait_for amount sleeps (fresh dest)) as [t woke].
  simpl in W. subst woke.
  destruct (wait_pred amount t) eqn:E; simpl; split; split.
  - intros _. exists t. auto.
  - reflexivity.
  - discriminate.
  - intros [H | [t' [H1 H2]]]; [discriminate|].
    injection H1 as <-. congruence.
  - discriminate.
  - intros [t' [H1 H2]]. injection H1 as <-. congruence.
  - intros _. right. exists t. auto.
  - reflexivity.
Qed.

(** X2. A validated request for zero bytes succeeds at once: the frame is
    written with a zero length, the waiter never sleeps, so no response is
    consumed, and the call returns 0 with the destination untouched. *)
Theorem zero_length_read_returns_at_once com pos dest sleeps :
  0 <= pos -> validated getBlockSizeBounds SectorSize pos 0 ->
  let o :=
    readLogicalDiskAligned getBlockSizeBounds SectorSize HostPC_from_SDCC1
                           com pos dest 0 sleeps in
  result o = Some 0
  /\ txn o = Some (fresh dest)
  /\ written (com_after o)
     = written com
         ++ [uint8 HostPC_from_SDCC1 :: le_bytes 4 (pos / SectorSize) ++ [0; 0]].
Proof.
  intros Hpos Hv. cbv zeta.
  rewrite (read_validated _ _ _ SectorSize_pos _ _ dest _ sleeps Hpos Hv).
  cbv zeta.
  assert (W : wait_for 0 sleeps (fresh dest) = (fresh dest, true))
    by (destruct sleeps; reflexivity).
  rewrite W. cbn [fst snd result txn com_after].
  split; [reflexivity|]. split; [reflexivity|].
  cbn [removeMessageCallback rawWrite addMessageCallback written snd fst].
  now rewrite command_frame_le.
Qed.

(** X3. A transaction completes end to end: for a validated request whose
    amount fits the 32-bit counter, response chunks that arrive in order
    and add up to the amount, however they are spread over the sleeps of
    the waiter, make the call return the amount in state [Complete], with
    the first [amount] bytes of the destination equal to the chunks in
    order and every other byte of memory as it was. *)
Theorem in_order_chunks_complete_the_read com pos dest amount groups :
  0 <= pos -> validated getBlockSizeBounds SectorSize pos amount ->
  amount < 2 ^ 32 ->
  vsize (List.concat (List.concat groups)) = amount ->
  let o :=
    readLogicalDiskAligned getBlockSizeBounds SectorSize HostPC_from_SDCC1
                           com pos dest amount (map (map sd_chunk) groups) in
  result o = Some amount
  /\ exists t,
      txn o = Some t
      /\ terminal_state amount t = Complete
      /\ read_range (into t) 0 (Z.to_nat amount)
         = List.concat (List.concat groups)
      /\ (forall i, i < 0 \/ amount <= i -> into t i = dest i).
Proof.
  intros Hpos Hv Hamt Hsum. cbv zeta.
  rewrite (read_validated _ _ _ SectorSize_pos _ _ dest _ _ Hpos Hv).
  cbv zeta.
  destruct (wait_for_chunks amount groups (fresh dest) Hamt eq_refl)
    as [W1 [W2 [W3 [W4 W5]]]]; [simpl; lia | simpl; lia |].
  rewrite W1. cbn [result txn]. split; [reflexivity|].
  eexists. split; [reflexivity|]. split; [|split].
  - unfold terminal_state. rewrite W2, W3, Z.eqb_refl. reflexivity.
  - simpl copied in W4. etransitivity; [|exact W4]. f_equal.
    rewrite <- Hsum. unfold vsize. lia.
  - exact W5.
Qed.

(** X4. A validated request for a positive amount to which no response on
    the network of the callback arrives returns nothing: the wait runs
    into the timeout with the callback never invoked, nothing copied,
    no error flagged, the destination untouched. *)
Theorem unanswered_read_times_out com pos dest amount sleeps :
  0 <= pos -> validated getBlockSizeBounds SectorSize pos amount ->
  amount <> 0 ->
  Forall (Forall (fun m => filter_match NeoMemorySDRead_filter m = false))
         sleeps ->
  let o :=
    readLogicalDiskAligned getBlockSizeBounds SectorSize HostPC_from_SDCC1
                           com pos dest amount sleeps in
  result o = None
  /\ txn o = Some (fresh dest)
  /\ terminal_state amount (fresh dest) = TimedOut.
Proof.
  intros Hpos Hv Hnz Hun. cbv zeta.
  rewrite (read_validated _ _ _ SectorSize_pos _ _ dest _ _ Hpos Hv).
  cbv zeta. rewrite wait_for_unmatched by exact Hun.
  assert (P : wait_pred amount (fresh dest) = false).
  { unfold wait_pred, fresh. cbn [error copied]. rewrite orb_false_l.
    apply Z.eqb_neq. lia. }
  cbn [fst snd]. rewrite P. cbn [result txn].
  split; [reflexivity|]. split; [reflexivity|].
  now apply wait_pred_terminal.
Qed.

(** X6. Reads compose: two validated requests made one after the other on
    the same communication object leave its subscriptions as they were
    before the first, take two ids from its counter, and have written
    their two frames in the order of the calls. *)
Theorem consecutive_reads_compose com pos1 dest1 amount1 sleeps1
        pos2 dest2 amount2 sleeps2 :
  registry_wf com ->
  0 <= pos1 -> validated getBlockSizeBounds SectorSize pos1 amount1 ->
  0 <= pos2 -> validated getBlockSizeBounds SectorSize pos2 amount2 ->
  let o1 :=
    readLogicalDiskAligned getBlockSizeBounds SectorSize HostPC_from_SDCC1
                           com pos1 dest1 amount1 sleeps1 in
  let o2 :=
    readLogicalDiskAligned getBlockSizeBounds SectorSize HostPC_from_SDCC1
                           (com_after o1) pos2 dest2 amount2 sleeps2 in
  messageCallbacks (com_after o2) = messageCallbacks com
  /\ messageCallbackIDCounter (com_after o2)
     = S (S (messageCallbackIDCounter com))
  /\ written (com_after o2)
     = written com
         ++ [command_frame HostPC_from_SDCC1 (pos1 / SectorSize) amount1;
             command_frame HostPC_from_SDCC1 (pos2 / SectorSize) amount2].
Proof.
  intros Hwf Hp1 Hv1 Hp2 Hv2. cbv zeta.
  rewrite (read_validated _ _ _ SectorSize_pos com _ dest1 _ sleeps1 Hp1 Hv1).
  cbv zeta. cbn [com_after].
  set (c1 := removeMessageCallback _ _).
  assert (E1 : messageCallbacks c1 = messageCallbacks com)
    by (subst c1; now apply remove_added).
  assert (Hwf1 : registry_wf c1).
  { subst c1. apply remove_preserves_wf.
    exact (add_preserves_wf com NeoMemorySDRead_filter DiskReadCallback Hwf). }
  rewrite (read_validated _ _ _ SectorSize_pos c1 _ dest2 _ sleeps2 Hp2 Hv2).
  cbv zeta. cbn [com_after].
  rewrite remove_added by exact Hwf1.
  split; [exact E1|]. split; [reflexivity|].
  cbn [removeMessageCallback rawWrite addMessageCallback written snd fst].
  subst c1.
  cbn [removeMessageCallback rawWrite addMessageCallback written snd fst].
  now rewrite <- app_assoc.
Qed.

End Driver.

(** *** The theorems on sample requests *)

Import Samples.

Lemma transaction_only_advances_witness :
  Forall sized [Some (sd_chunk (ramp 512)); None; Some (sd_chunk (ramp 600))]
  /\ copied (callback 1024 (Some (sd_chunk (ramp 512))) (fresh zeroed))
     <= copied (fold_left (fun t m => callback 1024 m t)
                          [None; Some (sd_chunk (ramp 600))]
                          (callback 1024 (Some (sd_chunk (ramp 512)))
                                    (fresh zeroed)))
     <= 1024.
Proof.
  assert (H : Forall sized [None; Some (sd_chunk (ramp 600))])
    by (repeat constructor; by_computation).
  assert (H' : Forall sized [Some (sd_chunk (ramp 512)); None;
                             Some (sd_chunk (ramp 600))])
    by (repeat constructor; by_computation).
  assert (H0 : 1024 < 2 ^ 32) by by_computation.
  assert (H1 : 0 <= copied (callback 1024 (Some (sd_chunk (ramp 512)))
                                     (fresh zeroed)))
    by by_computation.
  assert (H2 : copied (callback 1024 (Some (sd_chunk (ramp 512)))
                                (fresh zeroed)) <= 1024)
    by by_computation.
  pose proof (transaction_only_advances 1024 _ _ H0 H1 H2 H) as W.
  cbv zeta in W. split; [exact H' | apply W].
Defined.

Lemma zero_length_read_witness :
  validated bounds sector_512 1024 0
  /\ result (readLogicalDiskAligned bounds sector_512 opcode busy 1024 zeroed
                                    0 [[sd_chunk (ramp 512)]])
     = Some 0.
Proof.
  assert (H : validated bounds sector_512 1024 0)
    by (repeat split; by_computation).
  assert (H0 : 0 <= 1024) by by_computation.
  pose proof (zero_length_read_returns_at_once bounds sector_512 opcode
                sector_512_pos busy 1024 zeroed [[sd_chunk (ramp 512)]]
                H0 H) as W.
  cbv zeta in W. split; [exact H | apply W].
Defined.

Lemma in_order_chunks_witness :
  (validated bounds sector_512 0 1024
   /\ vsize (List.concat (List.concat [[ramp 512]; [ramp 512]])) = 1024)
  /\ result (readLogicalDiskAligned bounds sector_512 opcode busy 0 zeroed
                                    1024
                                    (map (map sd_chunk)
                                         [[ramp 512]; [ramp 512]]))
     = Some 1024.
Proof.
  assert (H : validated bounds sector_512 0 1024)
    by (repeat split; by_computation).
  assert (H0 : 0 <= 0) by by_computation.
  assert (H1 : 1024 < 2 ^ 32) by by_computation.
  assert (H2 : vsize (List.concat (List.concat [[ramp 512]; [ramp 512]]))
               = 1024) by by_computation.
  pose proof (in_order_chunks_complete_the_read bounds sector_512 opcode
                sector_512_pos busy 0 zeroed 1024 [[ramp 512]; [ramp 512]]
                H0 H H1 H2) as W.
  cbv zeta in W. split; [split; assumption | apply W].
Defined.

Lemma unanswered_read_witness :
  (validated bounds sector_512 0 512
   /\ Forall (Forall (fun m => filter_match NeoMemorySDRead_filter m = false))
             [[mkMessage (OtherNetID 7) (NeoReadMemorySDMessage (ramp 512))];
              []])
  /\ result (readLogicalDiskAligned bounds sector_512 opcode busy 0 zeroed
                                    512
                                    [[mkMessage (OtherNetID 7)
                                        (NeoReadMemorySDMessage (ramp 512))];
                                     []])
     = None.
Proof.
  assert (H : validated bounds sector_512 0 512)
    by (repeat split; by_computation).
  assert (H0 : 0 <= 0) by by_computation.
  assert (H1 : 512 <> 0) by by_computation.
  assert (H2 : Forall (Forall (fun m => filter_match NeoMemorySDRead_filter m
                                        = false))
                      [[mkMessage (OtherNetID 7)
                          (NeoReadMemorySDMessage (ramp 512))]; []])
    by (repeat constructor).
  pose proof (unanswered_read_times_out bounds sector_512 opcode
                sector_512_pos busy 0 zeroed 512 _ H0 H H1 H2) as W.
  cbv zeta in W. split; [split; assumption | apply W].
Defined.

Lemma consecutive_reads_witness :
  (registry_wf busy /\ validated bounds sector_512 0 512
   /\ validated bounds sector_512 512 512)
  /\ written
       (com_after
          (readLogicalDiskAligned bounds sector_512 opcode
             (com_after (readLogicalDiskAligned bounds sector_512 opcode busy
                                                0 zeroed 512 []))
             512 zeroed 512 [[sd_chunk (ramp 512)]]))
     = [[240; 0; 0; 0; 0; 0; 2]; [240; 1; 0; 0; 0; 0; 2]].
Proof.
  assert (H1 : validated bounds sector_512 0 512)
    by (repeat split; by_computation).
  assert (H2 : validated bounds sector_512 512 512)
    by (repeat split; by_computation).
  assert (P1 : 0 <= 0) by by_computation.
  assert (P2 : 0 <= 512) by by_computation.
  pose proof (consecutive_reads_compose bounds sector_512 opcode
                sector_512_pos busy 0 zeroed 512 [] 512 zeroed 512
                [[sd_chunk (ramp 512)]] busy_wf P1 H1 P2 H2) as W.
  cbv zeta in W. split; [repeat split; assumption || exact busy_wf|].
  apply W.
Defined.

End PlasionDiskMore.

(** ** More on CDC-ACM discovery *)

Module CDCACMMore.
Import Width WidthFacts CDCACM CDCACMFacts CDCACMFind.

(** *** Characters *)

Ltac each_ascii c :=
  destruct c as [[] [] [] [] [] [] [] []].

Lemma isdigit_digit_char c :
  isdigit c = true ->
  exists d, 0 <= d < 10 /\ c = digit_char d.
Proof.
  intros H. exists (Z.of_nat (nat_of_ascii c) - 48).
  unfold isdigit in H. cbv zeta in H. apply andb_prop in H.
  destruct H as [H1 H2]. apply Nat.leb_le in H1. apply Nat.leb_le in H2.
  split; [lia|]. unfold digit_char.
  replace (48 + Z.to_nat (Z.of_nat (nat_of_ascii c) - 48))%nat
    with (nat_of_ascii c) by lia.
  symmetry. apply ascii_nat_embedding.
Qed.


(** *** Strings *)

Lemma append_assoc (a b c : string) :
  ((a ++ b) ++ c = a ++ (b ++ c))%string.
Proof. induction a as [|x a IH]; simpl; [reflexivity | now rewrite IH]. Qed.




(** *** The handle of a tty *)

(** Where the loop over the characters of a tty stops: at its end, with
    nothing left, or in front of a digit. *)
Lemma substr_first_digit tty :
  (first_digit tty = String.length tty
   /\ substr (first_digit tty) tty = EmptyString)
  \/ ((first_digit tty < String.length tty)%nat
      /\ exists d r, 0 <= d < 10
                     /\ substr (first_digit tty) tty
                        = String (digit_char d) r).
Proof.
  induction tty as [|c tty IH].
  - left. split; reflexivity.
  - cbn [first_digit]. destruct (isdigit c) eqn:E.
    + right. split; [simpl; lia|].
      destruct (isdigit_digit_char c E) as [d [Hd ->]].
      exists d, tty. split; [exact Hd | reflexivity].
    + cbn [substr String.length].
      destruct IH as [[I1 I2] | [I1 I2]].
      * left. split; [now rewrite I1 | exact I2].
      * right. split; [lia | exact I2].
Qed.

(** X16. [Find] tosses a tty exactly when its name has no digit or the
    number that starts at its first digit exceeds [ULONG_MAX]; any other
    tty gets the handle that number gives, converted to 32 bits, plus the
    offset. *)
Theorem tty_handle_fails_iff tty :
  let i := first_digit tty in
  let number := digits_value (substr i tty) 0 in
  (tty_handle tty = None
   <-> i = String.length tty \/ ULONG_MAX < number)
  /\ ((i < String.length tty)%nat -> number <= ULONG_MAX ->
      tty_handle tty
      = Some (neodevice_handle (neodevice_handle number + HANDLE_OFFSET))).
Proof.
  cbv zeta. unfold tty_handle.
  destruct (substr_first_digit tty) as [[E1 E2] | [E1 [d [r [Hd E2]]]]].
  - rewrite E2. simpl. split; [split; auto | lia].
  - rewrite E2, stoul_at_digit by exact Hd. cbv zeta.
    destruct (Z.ltb_spec ULONG_MAX
                (digits_value (String (digit_char d) r) 0)) as [Hgt|Hle].
    + split; [split; auto | lia].
    + split; [|reflexivity]. split.
      * discriminate.
      * intros [H|H]; lia.
Qed.

(** X15. On the handles [Find] can produce, [HandleToTTY] is one to one:
    two handles from 10 up to [INT32_MAX] with the same device path are
    the same handle. *)
Theorem HandleToTTY_injective h1 h2 :
  HANDLE_OFFSET <= h1 < 2 ^ 31 -> HANDLE_OFFSET <= h2 < 2 ^ 31 ->
  HandleToTTY h1 = HandleToTTY h2 -> h1 = h2.
Proof.
  unfold HANDLE_OFFSET. intros H1 H2 E. unfold HandleToTTY in E.
  unfold HANDLE_OFFSET in E.
  rewrite (int32_small (h1 - 10)), (int32_small (h2 - 10)) in E by lia.
  simpl in E. injection E as E.
  pose proof (stoul_print (h1 - 10)) as P1.
  pose proof (stoul_print (h2 - 10)) as P2.
  rewrite E in P1. rewrite P2 in P1 by lia.
  assert (Some (h2 - 10) = Some (h1 - 10)) by (apply P1; lia).
  injection H as H. lia.
Qed.

(** *** The last loop *)

Section Loop.

Variable first_line : string -> string.
Variable serial_size : nat.



Lemma discover_appends found entry :
  exists new,
    discover first_line serial_size found entry = found ++ new
    /\ (List.length new <= 1)%nat.
Proof.
  destruct entry as [usb [tty pid]]. unfold discover.
  destruct (USBSerialGetter first_line usb) as [s|];
    [|exists []; rewrite app_nil_r; simpl; auto].
  destruct (tty_handle tty) as [h|];
    [|exists []; rewrite app_nil_r; simpl; auto].
  eexists. split; [reflexivity | simpl; lia].
Qed.

Lemma Find_devices_appends foundttys : forall found,
  exists new,
    Find_devices first_line serial_size foundttys found = found ++ new
    /\ (List.length new <= List.length foundttys)%nat.
Proof.
  induction foundttys as [|e l IH]; intros found.
  - exists []. rewrite app_nil_r. simpl. auto.
  - cbn [Find_devices fold_left].
    destruct (discover_appends found e) as [n1 [E1 L1]].
    destruct (IH (discover first_line serial_size found e)) as [n2 [E2 L2]].
    exists (n1 ++ n2). unfold Find_devices in E2. rewrite E2, E1.
    rewrite app_assoc, length_app. simpl. split; [reflexivity | lia].
Qed.


End Loop.

(** *** Reading lines *)

Lemma take_line_shorter s : forall l r,
  take_line s = (l, Some r) -> (String.length r < String.length s)%nat.
Proof.
  induction s as [|c s IH]; intros l r H; simpl in H; [discriminate|].
  destruct (Ascii.eqb c "010").
  - injection H as _ <-. simpl. lia.
  - destruct (take_line s) as [l' [r'|]]; [|discriminate].
    injection H as _ <-. specialize (IH l' r' eq_refl). simpl. lia.
Qed.

Lemma lacks_cons c x s :
  lacks c (String x s) -> Ascii.eqb x c = false /\ lacks c s.
Proof.
  unfold lacks. cbn [find_char]. destruct (Ascii.eqb x c); [discriminate|].
  destruct (find_char c 0 s); [discriminate|]. auto.
Qed.

Lemma take_line_append l : forall r,
  lacks newline l -> take_line (l ++ String newline r) = (l, Some r).
Proof.
  induction l as [|c l IH]; intros r H.
  - reflexivity.
  - apply lacks_cons in H. destruct H as [H1 H2].
    cbn [append take_line]. unfold newline in H1. rewrite H1.
    now rewrite (IH r H2).
Qed.

(** A stream with [failbit] set and [eofbit] clear stays so, and gives
    the loop nothing to stop on. *)
Lemma read_product_line_stuck fuel : forall stream str,
  failbit stream = true -> eofbit stream = false ->
  index 0 matchString str = None ->
  read_product_line fuel stream str = None.
Proof.
  induction fuel as [|fuel IH]; intros stream str Hf He Hi; [reflexivity|].
  cbn [read_product_line]. unfold getline, good. rewrite Hf, He.
  cbn [negb andb]. rewrite Hi. cbn [eofbit negb].
  apply IH; auto.
Qed.

(** On a file that was opened and whose reads succeed the loop ends before
    it has run once more than the file has characters. *)
Lemma read_product_line_ends n : forall c str,
  (String.length c <= n)%nat ->
  exists line,
    forall fuel, (n < fuel)%nat ->
      read_product_line fuel (sound_stream c) str
      = Some (line, index 0 matchString line).
Proof.
  induction n as [|n IH]; intros c str Hlen.
  - destruct c; [|simpl in Hlen; lia]. exists EmptyString.
    intros [|fuel] Hf; [lia|]. reflexivity.
  - destruct (take_line c) as [l [r|]] eqn:T.
    + pose proof (take_line_shorter c l r T) as Hr.
      destruct (index 0 matchString l) as [pos|] eqn:I.
      * exists l. intros [|fuel] Hf; [lia|].
        cbn [read_product_line]. unfold getline, good, sound_stream.
        cbn [eofbit failbit badbit unread negb andb]. rewrite T, I.
        reflexivity.
      * destruct (IH r l) as [line Hline]; [lia|]. exists line.
        intros [|fuel] Hf; [lia|].
        cbn [read_product_line]. unfold getline, good, sound_stream.
        cbn [eofbit failbit badbit broken unread negb andb]. rewrite T, I.
        cbn [eofbit negb]. apply Hline. lia.
    + exists l. intros [|fuel] Hf; [lia|].
      cbn [read_product_line]. unfold getline, good, sound_stream.
      cbn [eofbit failbit badbit broken unread negb andb]. rewrite T.
      destruct (index 0 matchString l); reflexivity.
Qed.

(** On a stream whose file buffer fails in the end, [eofbit] is never
    set, so the loop has one way out only: a line with [PRODUCT=]. *)
Lemma read_product_line_broken fuel : forall stream str line pos,
  eofbit stream = false -> broken stream = true ->
  read_product_line fuel stream str = Some (line, pos) ->
  exists p, pos = Some p /\ index 0 matchString line = Some p.
Proof.
  induction fuel as [|fuel IH]; intros stream str line pos He Hb H;
    [discriminate|].
  cbn [read_product_line] in H.
  assert (G : eofbit (fst (getline stream str)) = false
              /\ broken (fst (getline stream str)) = true).
  { unfold getline. destruct (good stream).
    - destruct (take_line (unread stream)) as [l [r|]].
      + cbn [fst eofbit broken]. auto.
      + rewrite Hb. cbn [fst eofbit broken]. auto.
    - cbn [fst eofbit broken]. auto. }
  destruct (getline stream str) as [fs1 l]. cbn [fst] in G.
  destruct G as [G1 G2].
  destruct (index 0 matchString l) as [p|] eqn:I.
  - injection H as <- <-. exists p. auto.
  - rewrite G1 in H. cbn [negb] in H. now apply (IH fs1 l).
Qed.

(** X9. When the uevent file can be opened and no read of it fails, the
    loop over its lines ends: after at most one iteration more than the
    file has characters it has stopped on a line, with the position of
    [PRODUCT=] in that line if it has one, and further iterations allowed
    change nothing.  When a read of the opened file fails instead,
    [badbit] is set and never [eofbit]: the loop cannot end at the end of
    the file, and whenever it ends it is on a line with [PRODUCT=]. *)
Theorem product_line_loop_ends fs path c :
  content fs path = Some c ->
  (read_error fs path = false ->
   exists line,
     forall fuel, (String.length c < fuel)%nat ->
       read_product_line fuel (open fs path) EmptyString
       = Some (line, index 0 matchString line))
  /\ (read_error fs path = true ->
      forall fuel line pos,
        read_product_line fuel (open fs path) EmptyString = Some (line, pos) ->
        exists p, pos = Some p /\ index 0 matchString line = Some p).
Proof.
  intros H. unfold open. rewrite H. split; intros E; rewrite E.
  - apply (read_product_line_ends (String.length c)). lia.
  - intros fuel line pos R.
    now apply (read_product_line_broken fuel _ EmptyString line pos) in R.
Qed.

(** The loop stops on the first line that contains [PRODUCT=], whatever
    becomes of the reads after it. *)
Lemma read_product_line_first_match pre :
  forall line pos post str fuel fails,
  Forall (fun l => lacks newline l /\ index 0 matchString l = None) pre ->
  lacks newline line -> index 0 matchString line = Some pos ->
  (List.length pre < fuel)%nat ->
  read_product_line fuel
    {| unread := (unlines pre ++ line ++ String newline post)%string;
       eofbit := false; failbit := false; badbit := false;
       broken := fails |} str
  = Some (line, Some pos).
Proof.
  induction pre as [|l pre IH];
    intros line pos post str fuel fails Hpre Hl Hi Hf.
  - destruct fuel as [|fuel]; [simpl in Hf; lia|].
    cbn [unlines append read_product_line]. unfold getline, good.
    cbn [eofbit failbit badbit unread negb andb].
    rewrite (take_line_append line post Hl), Hi. reflexivity.
  - destruct fuel as [|fuel]; [simpl in Hf; lia|].
    inversion Hpre as [|? ? [N1 N2] Hpre']; subst.
    cbn [unlines]. rewrite append_assoc. cbn [append].
    cbn [read_product_line]. unfold getline, good.
    cbn [eofbit failbit badbit broken unread negb andb].
    rewrite (take_line_append l _ N1), N2. cbn [eofbit negb].
    apply IH; auto. simpl in Hf. lia.
Qed.

(** *** Hexadecimal numbers *)

Lemma hex_cases d :
  0 <= d < 16 ->
  d = 0 \/ d = 1 \/ d = 2 \/ d = 3 \/ d = 4 \/ d = 5 \/ d = 6 \/ d = 7
  \/ d = 8 \/ d = 9 \/ d = 10 \/ d = 11 \/ d = 12 \/ d = 13 \/ d = 14
  \/ d = 15.
Proof. lia. Qed.

Lemma hex_char_value d : 0 <= d < 16 -> hex_value (hex_char d) = Some d.
Proof.
  intros H. apply hex_cases in H.
  repeat (destruct H as [H|H]; [subst; reflexivity|]). subst. reflexivity.
Qed.

Lemma hex_char_isxdigit d : 0 <= d < 16 -> isxdigit (hex_char d) = true.
Proof. intros H. unfold isxdigit. now rewrite hex_char_value. Qed.

Lemma isxdigit_plain c :
  isxdigit c = true ->
  isspace c = false
  /\ Ascii.eqb c "/" = false
  /\ Ascii.eqb c newline = false
  /\ (Ascii.eqb c "x" || Ascii.eqb c "X") = false.
Proof. each_ascii c; intros H; try discriminate H; repeat split. Qed.

(** The digits printed for [n] read back as [n]. *)
Lemma hex_digits_value_hexadecimal fuel : forall n rest a,
  0 <= n < 16 ^ Z.of_nat fuel ->
  exists p, hex_digits_value (hexadecimal fuel n rest) a
            = hex_digits_value rest (a * p + n).
Proof.
  induction fuel as [|fuel IH]; intros n rest a Hn.
  - exists 1. simpl in *. f_equal. lia.
  - cbn [hexadecimal].
    assert (Hd : 0 <= n mod 16 < 16) by (apply Z.mod_pos_bound; lia).
    pose proof (hex_char_value _ Hd) as D.
    destruct (Z.ltb_spec n 16) as [Hlt|Hge].
    + exists 16. cbn [hex_digits_value]. rewrite D.
      rewrite Z.mod_small by lia. reflexivity.
    + assert (Hq : 0 <= n / 16 < 16 ^ Z.of_nat fuel).
      { split; [apply Z.div_pos; lia|].
        apply Z.div_lt_upper_bound; [lia|].
        replace (Z.of_nat (S fuel)) with (1 + Z.of_nat fuel) in Hn by lia.
        rewrite Z.pow_add_r in Hn by lia. lia. }
      destruct (IH (n / 16) (String (hex_char (n mod 16)) rest) a Hq)
        as [p Hp].
      exists (p * 16). rewrite Hp. cbn [hex_digits_value]. rewrite D.
      f_equal. pose proof (Z.div_mod n 16). lia.
Qed.

Lemma hexadecimal_all_xdigit fuel : forall n rest,
  0 <= n -> all_xdigit rest = true ->
  all_xdigit (hexadecimal fuel n rest) = true.
Proof.
  induction fuel as [|fuel IH]; intros n rest Hn Hr; [exact Hr|].
  cbn [hexadecimal].
  assert (Hd : 0 <= n mod 16 < 16) by (apply Z.mod_pos_bound; lia).
  assert (Hacc : all_xdigit (String (hex_char (n mod 16)) rest) = true)
    by (cbn [all_xdigit]; now rewrite hex_char_isxdigit).
  destruct (n <? 16); [exact Hacc|].
  apply IH; [apply Z.div_pos; lia | exact Hacc].
Qed.

Lemma hexadecimal_nonempty fuel n rest :
  hexadecimal (S fuel) n rest <> EmptyString.
Proof.
  revert n rest. induction fuel as [|fuel IH]; intros n rest.
  - cbn [hexadecimal]. destruct (n <? 16); discriminate.
  - remember (S fuel) as k. cbn [hexadecimal]. subst k.
    destruct (n <? 16); [discriminate | apply IH].
Qed.

Lemma skip_0x_xdigits s : all_xdigit s = true -> skip_0x s = s.
Proof.
  intros H. destruct s as [|c [|x [|h r]]];
    [ reflexivity
    | each_ascii c; reflexivity
    | each_ascii c; reflexivity
    | ].
  each_ascii c; try reflexivity.
  cbn [all_xdigit] in H. apply andb_prop in H. destruct H as [_ H].
  apply andb_prop in H. destruct H as [Hx _].
  destruct (isxdigit_plain x Hx) as [_ [_ [_ Hnx]]].
  cbn [skip_0x]. rewrite Hnx. reflexivity.
Qed.

(** On a string of hexadecimal digits [stoul] in base 16 has nothing to
    skip. *)
Lemma stoul16_xdigits s :
  all_xdigit s = true -> s <> EmptyString ->
  stoul16 s
  = let v := hex_digits_value s 0 in
    if ULONG_MAX <? v then None else Some v.
Proof.
  intros H Hne. destruct s as [|c r]; [contradiction|].
  pose proof H as H'. cbn [all_xdigit] in H'. apply andb_prop in H'.
  destruct H' as [Hc _].
  pose proof (skip_0x_xdigits _ H) as K.
  each_ascii c; try discriminate Hc;
    unfold stoul16;
    lazymatch goal with
    | |- context [skip_space ?s] => change (skip_space s) with s
    end;
    cbv beta match zeta; rewrite K; reflexivity.
Qed.

Lemma stoul16_print_hex n :
  0 <= n < 2 ^ 16 -> stoul16 (print_hex n) = Some n.
Proof.
  intros Hn. unfold print_hex.
  rewrite stoul16_xdigits;
    [| apply hexadecimal_all_xdigit; [lia | reflexivity]
     | apply hexadecimal_nonempty].
  cbv zeta.
  destruct (hex_digits_value_hexadecimal 4 n EmptyString 0) as [p Hp].
  { change (16 ^ Z.of_nat 4) with (2 ^ 16). lia. }
  rewrite Hp. cbn [hex_digits_value]. rewrite Z.mul_0_l, Z.add_0_l.
  replace (ULONG_MAX <? n) with false; [reflexivity|].
  symmetry. apply Z.ltb_ge. unfold ULONG_MAX. lia.
Qed.

(** *** Fields between slashes *)

Lemma xdigits_lack_slash s : all_xdigit s = true -> lacks "/" s.
Proof.
  unfold lacks. induction s as [|c s IH]; intros H; [reflexivity|].
  cbn [all_xdigit] in H. apply andb_prop in H. destruct H as [Hc Hs].
  destruct (isxdigit_plain c Hc) as [_ [Hsl _]].
  cbn [find_char]. rewrite Hsl. now rewrite (IH Hs).
Qed.

Lemma xdigits_lack_newline s : all_xdigit s = true -> lacks newline s.
Proof.
  unfold lacks. induction s as [|c s IH]; intros H; [reflexivity|].
  cbn [all_xdigit] in H. apply andb_prop in H. destruct H as [Hc Hs].
  destruct (isxdigit_plain c Hc) as [_ [_ [Hnl _]]].
  cbn [find_char]. rewrite Hnl. now rewrite (IH Hs).
Qed.

Lemma find_char_skip c a : forall p b,
  find_char c (String.length a + p) (a ++ b)
  = option_map (Nat.add (String.length a)) (find_char c p b).
Proof.
  induction a as [|x a IH]; intros p b.
  - simpl. destruct (find_char c p b); reflexivity.
  - cbn [String.length append Nat.add find_char]. rewrite IH.
    destruct (find_char c p b); reflexivity.
Qed.

Lemma find_char_skip_all c a b :
  find_char c (String.length a) (a ++ b)
  = option_map (Nat.add (String.length a)) (find_char c 0 b).
Proof.
  pose proof (find_char_skip c a 0 b) as H.
  now rewrite Nat.add_0_r in H.
Qed.

Lemma find_char_past c a b :
  lacks c a ->
  find_char c 0 (a ++ b)
  = option_map (Nat.add (String.length a)) (find_char c 0 b).
Proof.
  induction a as [|x a IH]; intros H.
  - simpl. destruct (find_char c 0 b); reflexivity.
  - apply lacks_cons in H. destruct H as [H1 H2].
    cbn [append find_char String.length]. rewrite H1, (IH H2).
    destruct (find_char c 0 b); reflexivity.
Qed.

Lemma lacks_append c a b : lacks c a -> lacks c b -> lacks c (a ++ b).
Proof.
  intros Ha Hb. unfold lacks. rewrite find_char_past by exact Ha.
  unfold lacks in Hb. now rewrite Hb.
Qed.

Lemma substring_skip a : forall n m b,
  substring (String.length a + n) m (a ++ b) = substring n m b.
Proof. induction a as [|x a IH]; intros n m b; [reflexivity | apply IH]. Qed.

Lemma substring_skip_all a m b :
  substring (String.length a) m (a ++ b) = substring 0 m b.
Proof.
  pose proof (substring_skip a 0 m b) as H.
  now rewrite Nat.add_0_r in H.
Qed.

Lemma substring_prefix h : forall r,
  substring 0 (String.length h) (h ++ r) = h.
Proof.
  induction h as [|x h IH]; intros r.
  - destruct r; reflexivity.
  - cbn [String.length append substring]. now rewrite IH.
Qed.

Lemma find_char_here c r : find_char c 0 (String c r) = Some 0%nat.
Proof. cbn [find_char]. now rewrite Ascii.eqb_refl. Qed.

(** The two fields that follow a prefix, each ended by a slash. *)
Lemma slash_fields M h1 h2 rest :
  lacks "/" h1 -> lacks "/" h2 ->
  let line := (M ++ h1 ++ String "/" (h2 ++ String "/" rest))%string in
  let first := (String.length M + String.length h1)%nat in
  find_char "/" (String.length M) line = Some first
  /\ substring (String.length M) (first - String.length M) line = h1
  /\ find_char "/" (S first) line = Some (S first + String.length h2)%nat
  /\ substring (S first) (S first + String.length h2 - S first) line = h2.
Proof.
  intros L1 L2. cbv zeta.
  assert (F1 : find_char "/" 0 (h1 ++ String "/" (h2 ++ String "/" rest))
               = Some (String.length h1)).
  { rewrite find_char_past by exact L1. rewrite find_char_here.
    cbn [option_map]. now rewrite Nat.add_0_r. }
  assert (F2 : find_char "/" 0 (h2 ++ String "/" rest)
               = Some (String.length h2)).
  { rewrite find_char_past by exact L2. rewrite find_char_here.
    cbn [option_map]. now rewrite Nat.add_0_r. }
  split; [|split; [|split]].
  - rewrite find_char_skip_all, F1. reflexivity.
  - replace (String.length M + String.length h1 - String.length M)%nat
      with (String.length h1) by lia.
    rewrite substring_skip_all. apply substring_prefix.
  - replace (S (String.length M + String.length h1))
      with (String.length M + (String.length h1 + 1))%nat by lia.
    rewrite find_char_skip, find_char_skip.
    change (find_char "/" 1 (String "/" (h2 ++ String "/" rest)))
      with (option_map S (find_char "/" 0 (h2 ++ String "/" rest))).
    rewrite F2. cbn [option_map]. f_equal. lia.
  - replace (S (String.length M + String.length h1) + String.length h2
             - S (String.length M + String.length h1))%nat
      with (String.length h2) by lia.
    replace (S (String.length M + String.length h1))
      with (String.length M + (String.length h1 + 1))%nat by lia.
    rewrite substring_skip, substring_skip.
    change (substring 1 (String.length h2)
                      (String "/" (h2 ++ String "/" rest)))
      with (substring 0 (String.length h2) (h2 ++ String "/" rest)).
    apply substring_prefix.
Qed.

Lemma index_at_prefix s rest :
  s <> EmptyString -> index 0 s (s ++ rest) = Some 0%nat.
Proof.
  intros Hs.
  assert (P : prefix s (s ++ rest) = true)
    by (apply prefix_correct, substring_prefix).
  destruct s as [|c s]; [contradiction|].
  cbn [append index] in *. now rewrite P.
Qed.

Lemma index_product_line vid pid bcd :
  index 0 matchString (product_line vid pid bcd) = Some 0%nat.
Proof. unfold product_line. apply index_at_prefix. discriminate. Qed.

(** X10. The product line the kernel prints for 16-bit vendor, product and
    device numbers, [PRODUCT=%x/%x/%x], has [PRODUCT=] at position 0 and
    parses back to the vendor and product numbers it was printed from. *)
Theorem product_line_round_trip vid pid bcd :
  0 <= vid < 2 ^ 16 -> 0 <= pid < 2 ^ 16 -> 0 <= bcd < 2 ^ 16 ->
  index 0 matchString (product_line vid pid bcd) = Some 0%nat
  /\ product_ids (product_line vid pid bcd) (Some 0%nat) = Some (vid, pid).
Proof.
  intros Hv Hp Hb. split; [apply index_product_line|].
  assert (X1 : all_xdigit (print_hex vid) = true)
    by (apply hexadecimal_all_xdigit; [lia | reflexivity]).
  assert (X2 : all_xdigit (print_hex pid) = true)
    by (apply hexadecimal_all_xdigit; [lia | reflexivity]).
  destruct (slash_fields matchString (print_hex vid) (print_hex pid)
              (print_hex bcd) (xdigits_lack_slash _ X1)
              (xdigits_lack_slash _ X2)) as [S1 [S2 [S3 S4]]].
  unfold product_ids.
  change (product_line vid pid bcd)
    with (matchString ++ print_hex vid
            ++ String "/" (print_hex pid ++ String "/" (print_hex bcd)))%string.
  rewrite S1, S2, S3, S4.
  rewrite (stoul16_print_hex vid Hv), (stoul16_print_hex pid Hp).
  unfold uint16. rewrite !Z.mod_small by lia. reflexivity.
Qed.

Lemma product_line_lacks_newline vid pid bcd :
  0 <= vid -> 0 <= pid -> 0 <= bcd ->
  lacks newline (product_line vid pid bcd).
Proof.
  intros Hv Hp Hb. unfold product_line.
  assert (X : forall n, 0 <= n -> lacks newline (print_hex n)).
  { intros n Hn. apply xdigits_lack_newline.
    apply hexadecimal_all_xdigit; [lia | reflexivity]. }
  assert (S : forall r, lacks newline r -> lacks newline ("/" ++ r)).
  { intros r Hr. unfold lacks in *. cbn [append find_char].
    change (Ascii.eqb "/" newline) with false. cbv iota. now rewrite Hr. }
  apply lacks_append; [reflexivity|].
  apply lacks_append; [now apply X|]. apply S.
  apply lacks_append; [now apply X|]. apply S. now apply X.
Qed.

(** *** The map and the loops over it *)


Lemma map_insert_length {V : Type} k (v : V) m :
  (List.length (map_insert k v m) <= S (List.length m))%nat.
Proof.
  induction m as [|[k' v'] m IH]; simpl; [lia|].
  destruct (String.compare k k'); simpl; lia.
Qed.

Section Find.

Variable INTREPID_USB_VENDOR_ID : Z.
Variable serial_size : nat.
Variable fs : FileSystem.



Lemma foundttys_length_from usbs : forall m0,
  (List.length
     (fold_left (fun m u => match tty_of fs u with
                            | Some t => map_insert u (t, 0%Z) m
                            | None => m
                            end) usbs m0)
   <= List.length m0 + List.length usbs)%nat.
Proof.
  induction usbs as [|u usbs IH]; intros m0; simpl; [lia|].
  etransitivity; [apply IH|].
  destruct (tty_of fs u); [|lia].
  pose proof (map_insert_length u (s, 0) m0). lia.
Qed.


Lemma keep_products_length fuel m : forall kept,
  keep_products INTREPID_USB_VENDOR_ID fs fuel m = Some kept ->
  (List.length kept <= List.length m)%nat.
Proof.
  induction m as [|e m IH]; intros kept H.
  - injection H as <-. simpl. lia.
  - cbn [keep_products] in H.
    destruct (check_product INTREPID_USB_VENDOR_ID fs fuel e) as [k|];
      [|discriminate].
    destruct (keep_products INTREPID_USB_VENDOR_ID fs fuel m) as [rest|];
      [|discriminate].
    injection H as <-. specialize (IH rest eq_refl).
    destruct k; simpl; lia.
Qed.

Lemma keep_products_stuck fuel m e :
  In e m -> check_product INTREPID_USB_VENDOR_ID fs fuel e = None ->
  keep_products INTREPID_USB_VENDOR_ID fs fuel m = None.
Proof.
  induction m as [|e' m IH]; intros Hin C; [destruct Hin|].
  cbn [keep_products]. destruct Hin as [-> | Hin].
  - now rewrite C.
  - destruct (check_product INTREPID_USB_VENDOR_ID fs fuel e');
      [|reflexivity].
    now rewrite (IH Hin C).
Qed.


(** X8. A tty in the map whose uevent file cannot be opened keeps [Find]
    from returning: the stream has [failbit] set and never [eofbit], each
    [getline] leaves the line empty, and the loop over the lines has no
    way to end, however many iterations it is given. *)
Theorem Find_hangs_on_missing_uevent entries usb tty pid :
  opendir fs "/sys/bus/usb/drivers/cdc_acm" = Some entries ->
  In (usb, (tty, pid)) (foundttys fs (foundusbs (ls entries))) ->
  content fs ("/sys/class/tty/" ++ tty ++ "/device/uevent") = None ->
  forall fuel found,
    Find INTREPID_USB_VENDOR_ID serial_size fs fuel found = None.
Proof.
  intros Hdir Hin Hfile fuel found. unfold Find. rewrite Hdir.
  rewrite (keep_products_stuck fuel _ _ Hin); [reflexivity|].
  unfold check_product, open. rewrite Hfile.
  now rewrite read_product_line_stuck.
Qed.

(** X11. The third loop on a well-formed uevent file: when the lines in
    front of the first line with [PRODUCT=] are followed by the product
    line of 16-bit numbers, the entry of the tty stays in the map exactly
    when the vendor number is that of Intrepid, and then carries the
    product number of the line. *)
Theorem uevent_product_line_decides usb tty p0 pre vid pid bcd post fuel :
  content fs ("/sys/class/tty/" ++ tty ++ "/device/uevent")
  = Some (unlines pre ++ product_line vid pid bcd ++ String newline post)
           %string ->
  Forall (fun l => lacks newline l /\ index 0 matchString l = None) pre ->
  0 <= vid < 2 ^ 16 -> 0 <= pid < 2 ^ 16 -> 0 <= bcd < 2 ^ 16 ->
  (List.length pre < fuel)%nat ->
  check_product INTREPID_USB_VENDOR_ID fs fuel (usb, (tty, p0))
  = Some (if vid =? INTREPID_USB_VENDOR_ID
          then Some (usb, (tty, pid)) else None).
Proof.
  intros Hfile Hpre Hv Hp Hb Hfuel. unfold check_product, open.
  rewrite Hfile.
  destruct (product_line_round_trip vid pid bcd Hv Hp Hb) as [I P].
  rewrite (read_product_line_first_match pre _ 0%nat post EmptyString fuel
             _ Hpre (product_line_lacks_newline vid pid bcd (proj1 Hv)
                       (proj1 Hp) (proj1 Hb)) I Hfuel).
  rewrite P. destruct (vid =? INTREPID_USB_VENDOR_ID); reflexivity.
Qed.


(** X13. [Find] only appends: the devices found before are still there,
    in front and in their order; when the driver directory cannot be
    opened nothing is added, and otherwise at most one device is added for
    each symbolic link of the directory whose name begins with a digit. *)
Theorem Find_only_appends fuel found result :
  Find INTREPID_USB_VENDOR_ID serial_size fs fuel found = Some result ->
  exists new,
    result = found ++ new
    /\ match opendir fs "/sys/bus/usb/drivers/cdc_acm" with
       | None => new = []
       | Some entries =>
           (List.length new <= List.length (foundusbs (ls entries)))%nat
       end.
Proof.
  unfold Find. intros H.
  destruct (opendir fs "/sys/bus/usb/drivers/cdc_acm") as [entries|].
  2:{ injection H as <-. exists []. now rewrite app_nil_r. }
  destruct (keep_products _ _ _ _) as [kept|] eqn:K; [|discriminate].
  injection H as <-.
  destruct (Find_devices_appends (first_line fs) serial_size kept found)
    as [new [E L]].
  exists new. split; [exact E|].
  pose proof (keep_products_length fuel _ kept K) as L1.
  pose proof (foundttys_length_from (foundusbs (ls entries)) []) as L2.
  unfold foundttys in L1. simpl in L2. lia.
Qed.

End Find.

(** *** The theorems on the sample of sysfs *)

Import FindSamples.

Lemma HandleToTTY_injective_witness :
  (HANDLE_OFFSET <= 265 < 2 ^ 31 /\ HANDLE_OFFSET <= 10 + 255 < 2 ^ 31)
  /\ 265 = 10 + 255.
Proof.
  assert (H1 : HANDLE_OFFSET <= 265 < 2 ^ 31)
    by (split; vm_compute; [discriminate | reflexivity]).
  assert (H2 : HANDLE_OFFSET <= 10 + 255 < 2 ^ 31)
    by (split; vm_compute; [discriminate | reflexivity]).
  split; [split; assumption|].
  exact (HandleToTTY_injective 265 (10 + 255) H1 H2 eq_refl).
Defined.


Lemma product_line_loop_witness :
  (content (sysfs true) "/sys/class/tty/ttyACM0/device/uevent"
   = Some uevent_text
   /\ read_error (sysfs true) "/sys/class/tty/ttyACM0/device/uevent" = false)
  /\ exists line,
      read_product_line 100 (open (sysfs true)
                                  "/sys/class/tty/ttyACM0/device/uevent")
                        EmptyString
      = Some (line, index 0 matchString line).
Proof.
  assert (H : content (sysfs true) "/sys/class/tty/ttyACM0/device/uevent"
              = Some uevent_text) by reflexivity.
  assert (E : read_error (sysfs true) "/sys/class/tty/ttyACM0/device/uevent"
              = false) by reflexivity.
  split; [split; assumption|].
  destruct (proj1 (product_line_loop_ends _ _ _ H) E) as [line W].
  exists line. apply W. apply Nat.ltb_lt. vm_compute. reflexivity.
Defined.

Lemma product_line_round_trip_witness :
  (0 <= 2364 < 2 ^ 16 /\ 0 <= 4357 < 2 ^ 16 /\ 0 <= 256 < 2 ^ 16)
  /\ product_ids "PRODUCT=93c/1105/100" (Some 0%nat) = Some (2364, 4357).
Proof.
  assert (H1 : 0 <= 2364 < 2 ^ 16)
    by (split; vm_compute; [discriminate | reflexivity]).
  assert (H2 : 0 <= 4357 < 2 ^ 16)
    by (split; vm_compute; [discriminate | reflexivity]).
  assert (H3 : 0 <= 256 < 2 ^ 16)
    by (split; vm_compute; [discriminate | reflexivity]).
  split; [exact (conj H1 (conj H2 H3))|].
  exact (proj2 (product_line_round_trip 2364 4357 256 H1 H2 H3)).
Defined.

Lemma Find_hangs_witness :
  (opendir (sysfs false) "/sys/bus/usb/drivers/cdc_acm" = Some driver_entries
   /\ content (sysfs false) "/sys/class/tty/ttyACM0/device/uevent" = None)
  /\ Find vendor_93c 7 (sysfs false) 1000 [] = None.
Proof.
  assert (H1 : opendir (sysfs false) "/sys/bus/usb/drivers/cdc_acm"
               = Some driver_entries) by reflexivity.
  assert (H2 : In ("7-2:1.0", ("ttyACM0", 0))%string
                  (foundttys (sysfs false) (foundusbs (ls driver_entries))))
    by (left; vm_compute; reflexivity).
  assert (H3 : content (sysfs false) "/sys/class/tty/ttyACM0/device/uevent"
               = None) by reflexivity.
  split; [split; assumption|].
  exact (Find_hangs_on_missing_uevent vendor_93c 7 (sysfs false) _ _ _ _
                                      H1 H2 H3 1000%nat []).
Defined.

Lemma uevent_product_line_witness :
  Forall (fun l => lacks newline l /\ index 0 matchString l = None)
         ["DEVTYPE=usb_interface"; "DRIVER=cdc_acm"]%string
  /\ check_product vendor_93c (sysfs true) 3 ("7-2:1.0", ("ttyACM0", 0))%string
     = Some (Some ("7-2:1.0", ("ttyACM0", 4357))%string).
Proof.
  assert (H : Forall (fun l => lacks newline l
                               /\ index 0 matchString l = None)
                     ["DEVTYPE=usb_interface"; "DRIVER=cdc_acm"]%string)
    by (repeat constructor).
  assert (H1 : 0 <= 2364 < 2 ^ 16)
    by (split; vm_compute; [discriminate | reflexivity]).
  assert (H2 : 0 <= 4357 < 2 ^ 16)
    by (split; vm_compute; [discriminate | reflexivity]).
  assert (H3 : 0 <= 256 < 2 ^ 16)
    by (split; vm_compute; [discriminate | reflexivity]).
  assert (F : (2 < 3)%nat) by (apply Nat.ltb_lt; reflexivity).
  split; [exact H|].
  exact (uevent_product_line_decides vendor_93c (sysfs true) "7-2:1.0"
           "ttyACM0" 0 ["DEVTYPE=usb_interface"; "DRIVER=cdc_acm"]%string
           2364 4357 256 (unlines ["TYPE=2/0/0"%string]) 3 eq_refl H H1 H2
           H3 F).
Defined.


Lemma Find_only_appends_witness :
  Find vendor_93c 7 (sysfs true) 10 [jupiter] = Some [jupiter; jupiter]
  /\ exists new, [jupiter; jupiter] = [jupiter] ++ new.
Proof.
  assert (H : Find vendor_93c 7 (sysfs true) 10 [jupiter]
              = Some [jupiter; jupiter])
    by (vm_compute; reflexivity).
  split; [exact H|].
  destruct (Find_only_appends vendor_93c 7 (sysfs true) 10 _ _ H)
    as [new [E _]].
  exists new. exact E.
Defined.

End CDCACMMore.

(** ** Limits of the aligned disk read *)

Module PlasionDiskLimits.
Import Width WidthFacts PlasionDisk PlasionDiskFacts Samples.

(** In-order chunks that stay short of the amount leave the waiter asleep
    until the timeout, with the chunks laid down so far. *)
Lemma wait_for_short amount groups : forall t,
  amount < 2 ^ 32 -> error t = false -> 0 <= copied t ->
  copied t + vsize (List.concat (List.concat groups)) < amount ->
  let r := wait_for amount (map (map sd_chunk) groups) t in
  snd r = false
  /\ error (fst r) = false
  /\ copied (fst r) = copied t + vsize (List.concat (List.concat groups))
  /\ read_range (into (fst r)) (copied t)
                (List.length (List.concat (List.concat groups)))
     = List.concat (List.concat groups)
  /\ (forall i,
        i < copied t
        \/ copied t + vsize (List.concat (List.concat groups)) <= i ->
        into (fst r) i = into t i).
Proof.
  induction groups as [|g rest IH]; intros t Hamt Herr Hc Hsum; cbv zeta.
  - simpl in *. unfold vsize in *. simpl in *.
    unfold wait_pred. rewrite Herr.
    replace (copied t =? amount) with false
      by (symmetry; apply Z.eqb_neq; lia).
    repeat split; auto. lia.
  - cbn [map wait_for]. cbn [List.concat] in *.
    rewrite concat_app, vsize_app in *.
    pose proof (vsize_nonneg (List.concat g)) as Hg.
    pose proof (vsize_nonneg (List.concat (List.concat rest))) as Hr.
    assert (E : wait_pred amount t = false).
    { unfold wait_pred. rewrite Herr. apply Z.eqb_neq. lia. }
    rewrite E.
    destruct (chunks_accumulate amount g t Hamt Hc) as [A1 [A2 [A3 A4]]];
      [lia|].
    set (t1 := deliver amount (map sd_chunk g) t) in *.
    destruct (IH t1 Hamt) as [I1 [I2 [I3 [I4 I5]]]];
      [congruence | lia | lia |].
    split; [exact I1|]. split; [exact I2|]. split; [lia|]. split.
    + rewrite length_app, read_range_app. f_equal.
      * etransitivity; [|exact A3]. apply read_range_ext. intros i Hi.
        apply I5. left. unfold vsize in A1. lia.
      * etransitivity; [|exact I4]. f_equal. unfold vsize in A1. lia.
    + intros i Hi. rewrite I5 by lia. apply A4. lia.
Qed.

Section Driver.

Variable getBlockSizeBounds : Z * Z.
Variable SectorSize : Z.
Variable HostPC_from_SDCC1 : Z.

Hypothesis SectorSize_pos : 0 < SectorSize.

(** X17. A read that fails can still have written: when the chunks that
    arrive in order before the timeout add up to less than the amount, the
    call returns nothing, yet the destination holds those chunks at its
    start, [copied] bytes of them, the rest of memory being as it was. *)
Theorem short_delivery_times_out_with_data_written com pos dest amount
        groups :
  0 <= pos -> validated getBlockSizeBounds SectorSize pos amount ->
  amount < 2 ^ 32 ->
  vsize (List.concat (List.concat groups)) < amount ->
  let o :=
    readLogicalDiskAligned getBlockSizeBounds SectorSize HostPC_from_SDCC1
                           com pos dest amount (map (map sd_chunk) groups) in
  result o = None
  /\ exists t,
      txn o = Some t
      /\ terminal_state amount t = TimedOut
      /\ copied t = vsize (List.concat (List.concat groups))
      /\ read_range (into t) 0
                    (List.length (List.concat (List.concat groups)))
         = List.concat (List.concat groups)
      /\ (forall i, i < 0 \/ copied t <= i -> into t i = dest i).
Proof.
  intros Hpos Hv Hamt Hsum. cbv zeta.
  rewrite (read_validated _ _ _ SectorSize_pos _ _ dest _ _ Hpos Hv).
  cbv zeta.
  destruct (wait_for_short amount groups (fresh dest) Hamt eq_refl)
    as [W1 [W2 [W3 [W4 W5]]]]; [simpl; lia | simpl; lia |].
  rewrite W1. cbn [result txn]. split; [reflexivity|].
  eexists. split; [reflexivity|]. simpl copied in *.
  split; [|split; [|split]].
  - unfold terminal_state. rewrite W2, W3.
    replace (0 + vsize (List.concat (List.concat groups)) =? amount)
      with false by (symmetry; apply Z.eqb_neq; lia).
    reflexivity.
  - lia.
  - exact W4.
  - intros i Hi. apply W5. lia.
Qed.

(** X18. Among the requests that meet the three preconditions, those that
    get as far as subscribing and writing a frame are exactly those whose
    offset lies below 2^32 sectors; from that offset on the call fails
    before any I/O. *)
Theorem read_runs_iff_offset_below_sector_limit com pos dest amount sleeps :
  0 <= pos -> preconditions getBlockSizeBounds pos amount ->
  let o :=
    readLogicalDiskAligned getBlockSizeBounds SectorSize HostPC_from_SDCC1
                           com pos dest amount sleeps in
  (pos < 2 ^ 32 * SectorSize
   <-> written (com_after o)
       = written com
           ++ [command_frame HostPC_from_SDCC1 (pos / SectorSize) amount])
  /\ (2 ^ 32 * SectorSize <= pos <-> o = failure com).
Proof.
  intros Hpos Hpre. cbv zeta.
  assert (L : pos / SectorSize < 2 ^ 32 <-> pos < 2 ^ 32 * SectorSize).
  { split; intros H.
    - pose proof (Z.mul_succ_div_gt pos SectorSize SectorSize_pos). nia.
    - apply Z.div_lt_upper_bound; lia. }
  destruct (Z.lt_ge_cases pos (2 ^ 32 * SectorSize)) as [Hlt|Hge].
  - assert (Hv : validated getBlockSizeBounds SectorSize pos amount)
      by (split; [exact Hpre | now apply L]).
    rewrite (read_validated _ _ _ SectorSize_pos com _ dest _ sleeps Hpos Hv).
    cbv zeta.
    split; split; intros H; try lia.
    + reflexivity.
    + exfalso. apply (f_equal txn) in H. discriminate H.
  - assert (Hn : ~ validated getBlockSizeBounds SectorSize pos amount).
    { intros [_ H]. apply L in H. lia. }
    rewrite (read_rejected _ _ _ SectorSize_pos com _ dest _ sleeps Hpos Hn).
    split; split; intros H; try lia; try reflexivity.
    exfalso. cbn [failure com_after] in H.
    apply (f_equal (@List.length _)) in H. rewrite length_app in H.
    simpl in H. lia.
Qed.

End Driver.

Lemma short_delivery_witness :
  (validated bounds sector_512 0 1024
   /\ vsize (List.concat (List.concat [[ramp 512]])) < 1024)
  /\ result (readLogicalDiskAligned bounds sector_512 opcode busy 0 zeroed
                                    1024 (map (map sd_chunk) [[ramp 512]]))
     = None.
Proof.
  assert (H : validated bounds sector_512 0 1024)
    by (repeat split; by_computation).
  assert (H0 : 0 <= 0) by by_computation.
  assert (H1 : 1024 < 2 ^ 32) by by_computation.
  assert (H2 : vsize (List.concat (List.concat [[ramp 512]])) < 1024)
    by by_computation.
  pose proof (short_delivery_times_out_with_data_written bounds sector_512
                opcode sector_512_pos busy 0 zeroed 1024 [[ramp 512]]
                H0 H H1 H2) as W.
  cbv zeta in W. split; [split; assumption | apply W].
Defined.

Lemma sector_limit_witness :
  preconditions bounds (2 ^ 41) 512
  /\ readLogicalDiskAligned bounds sector_512 opcode busy (2 ^ 41) zeroed 512
                            []
     = failure busy.
Proof.
  assert (H : preconditions bounds (2 ^ 41) 512)
    by (repeat split; by_computation).
  assert (H0 : 0 <= 2 ^ 41) by by_computation.
  assert (H1 : 2 ^ 32 * sector_512 <= 2 ^ 41) by by_computation.
  pose proof (read_runs_iff_offset_below_sector_limit bounds sector_512
                opcode sector_512_pos busy (2 ^ 41) zeroed 512 [] H0 H) as W.
  cbv zeta in W. split; [exact H | apply W; exact H1].
Defined.

End PlasionDiskLimits.

(** ** The serial number file of a USB device *)

Module CDCACMSerial.
Import CDCACM CDCACMFacts CDCACMFind CDCACMMore FindSamples.

Lemma substring_0_0 s : substring 0 0 s = EmptyString.
Proof. destruct s; reflexivity. Qed.

Lemma prefix_colon x r :
  prefix ":" (String x r) = Ascii.eqb x ":".
Proof.
  destruct (prefix ":" (String x r)) eqn:P.
  - apply prefix_correct in P. cbn [String.length substring] in P.
    injection P as ->. reflexivity.
  - destruct (Ascii.eqb_spec x ":") as [->|N]; [|reflexivity].
    assert (T : prefix ":" (String ":" r) = true)
      by (apply prefix_correct; cbn [String.length substring];
          now rewrite substring_0_0).
    congruence.
Qed.

(** [find(":")] stops at the colon that follows a part without colons. *)
Lemma index_first_colon device : forall rest,
  lacks ":" device ->
  index 0 ":" (device ++ String ":" rest) = Some (String.length device).
Proof.
  induction device as [|x device IH]; intros rest H.
  - cbn [append index]. rewrite prefix_colon. reflexivity.
  - apply lacks_cons in H. destruct H as [H1 H2].
    cbn [append index String.length]. rewrite prefix_colon, H1.
    now rewrite (IH rest H2).
Qed.

(** X19. The serial number is that of the USB device, whatever the
    interface: for a directory name made of a device part without colon,
    a colon and anything after it, [USBSerialGetter] succeeds with the
    upper-cased first line of [/sys/bus/usb/devices/<device part>/serial],
    so that all interfaces of one device get the same serial number; a
    name without colon fails. *)
Theorem USBSerialGetter_reads_device_serial first_line device interface :
  lacks ":" device ->
  USBSerialGetter first_line (device ++ String ":" interface)
  = Some (string_map toupper
            (first_line
               ("/sys/bus/usb/devices/" ++ device ++ "/serial")%string))
  /\ USBSerialGetter first_line device = None.
Proof.
  intros H. unfold USBSerialGetter. split.
  - rewrite (index_first_colon device interface H).
    now rewrite substring_prefix.
  - assert (N : index 0 ":" device = None).
    { clear interface. induction device as [|x device IH]; [reflexivity|].
      apply lacks_cons in H. destruct H as [H1 H2].
      cbn [index]. rewrite prefix_colon, H1. now rewrite (IH H2). }
    now rewrite N.
Qed.

Lemma USBSerialGetter_witness :
  lacks ":" "7-2"
  /\ USBSerialGetter (CDCACMFind.first_line (sysfs true)) "7-2:1.1"
     = Some "RJ0042"%string.
Proof.
  assert (H : lacks ":" "7-2") by reflexivity.
  split; [exact H|].
  exact (proj1 (USBSerialGetter_reads_device_serial
                  (CDCACMFind.first_line (sysfs true)) "7-2" "1.1" H)).
Defined.

End CDCACMSerial.

(** ** A tty number beyond the handle type *)

Module CDCACMHandleZero.
Import CDCACM CDCACMFind FindSamples.


End CDCACMHandleZero.
